(** * multislog: fan-out dispatch, teardown and the log-file sandbox

    A shallow embedding of the Go package [multislog]
    (multi_handler.go, email_handler.go, smtp_client.go and the two
    revisions of multislog.go) together with the properties its design
    document states about it.

    Go strings are byte strings: they are modelled by [string], whose
    characters are the 256 values of [ascii].  Integers of type [int]
    (levels, open flags, file modes) are modelled by [Z]; none of the
    operations used here can overflow. *)

From Stdlib Require Import ZArith List String Ascii Bool Lia PeanoNat.
Import ListNotations.

Notation "a +++ b" := (String.append a b)
  (at level 60, right associativity) : string_scope.

Local Open Scope string_scope.
Local Open Scope list_scope.

(* ================================================================= *)
(** ** Byte strings *)

Module strings.

(** [strings.HasPrefix(s, prefix)]. *)
Fixpoint HasPrefix (s prefix : string) {struct prefix} : bool :=
  match prefix with
  | EmptyString => true
  | String p prefix' =>
      match s with
      | EmptyString => false
      | String c s' => Ascii.eqb c p && HasPrefix s' prefix'
      end
  end.

(** [strings.Contains(s, string(c))] for a one-byte needle. *)
Fixpoint ContainsByte (s : string) (c : ascii) : bool :=
  match s with
  | EmptyString => false
  | String d s' => Ascii.eqb d c || ContainsByte s' c
  end.

(** [strings.Join(elems, string(sep))]. *)
Fixpoint Join (elems : list string) (sep : ascii) : string :=
  match elems with
  | [] => EmptyString
  | [e] => e
  | e :: rest => e +++ String sep (Join rest sep)
  end.

(** [strings.Split(s, string(sep))]: the fields between separators; a
    string without separator is its own single field. *)
Fixpoint Split (s : string) (sep : ascii) : list string :=
  match s with
  | EmptyString => [EmptyString]
  | String c s' =>
      if Ascii.eqb c sep then EmptyString :: Split s' sep
      else match Split s' sep with
           | [] => [String c EmptyString]
           | x :: xs => String c x :: xs
           end
  end.

End strings.

(* ================================================================= *)
(** ** path/filepath on Unix

    The functions of Go's [path/filepath] that [openLogFile] calls, for
    the Unix build (separator [/], no volume names).  [Clean] applies
    the documented rules of the library: empty and [.] elements are
    dropped, an inner [..] removes the element before it, a [..] at the
    start of a rooted path is dropped, and the empty result is [.].
    The library scans the bytes with an output buffer and a [dotdot]
    mark below which the buffer may not be cut; here the buffer is kept
    as the list of elements written so far and [dotdot] counts the
    leading elements that are protected. *)

Module filepath.

Definition Separator : ascii := "/"%char.

Definition IsPathSeparator (c : ascii) : bool := Ascii.eqb c Separator.

Definition rooted (path : string) : bool :=
  match path with
  | String c _ => IsPathSeparator c
  | EmptyString => false
  end.

(** The output buffer of [Clean]. *)
Record lazybuf := { buf : list string; dotdot : nat }.

(** One iteration of the loop of [Clean], on the element [e] that
    starts at the read position. *)
Definition clean_step (is_rooted : bool) (out : lazybuf) (e : string)
  : lazybuf :=
  if String.eqb e "" then out                       (* empty path element *)
  else if String.eqb e "." then out                 (* . element *)
  else if String.eqb e ".." then                    (* .. element *)
    if Nat.ltb (dotdot out) (List.length (buf out)) then (* can backtrack *)
      {| buf := removelast (buf out); dotdot := dotdot out |}
    else if is_rooted then out
    else                                            (* append .. element *)
      {| buf := buf out ++ [".."]; dotdot := S (List.length (buf out)) |}
  else                                              (* real path element *)
    {| buf := buf out ++ [e]; dotdot := dotdot out |}.

Definition clean_loop (is_rooted : bool) (elems : list string) : lazybuf :=
  fold_left (clean_step is_rooted) elems {| buf := []; dotdot := 0 |}.

Definition render (is_rooted : bool) (out : lazybuf) : string :=
  if is_rooted then String Separator (strings.Join (buf out) Separator)
  else match buf out with
       | [] => "."
       | _ => strings.Join (buf out) Separator
       end.

Definition Clean (path : string) : string :=
  render (rooted path)
         (clean_loop (rooted path) (strings.Split path Separator)).

(** [filepath.Join] of two elements: leading empty elements are
    ignored, the rest is joined with the separator and cleaned. *)
Definition Join (a b : string) : string :=
  if String.eqb a "" then
    if String.eqb b "" then "" else Clean b
  else Clean (a +++ String Separator b).

(** The prefix of [path] up to and including its last separator. *)
Fixpoint upto_last_sep (path : string) : string :=
  match path with
  | EmptyString => EmptyString
  | String c rest =>
      if strings.ContainsByte path Separator
      then String c (upto_last_sep rest)
      else EmptyString
  end.

(** [filepath.Dir]: all but the last element of [path], cleaned. *)
Definition Dir (path : string) : string := Clean (upto_last_sep path).

End filepath.

(* ================================================================= *)
(** ** Errors, results and the call trace *)

(** Go error values.  [errors.New] makes a sentinel, [fmt.Errorf] wraps
    its operands, and [Foreign] stands for an error made outside the
    package (by the os, time and net/smtp libraries or by a sink). *)
Inductive error : Type :=
| errors_New (text : string)
| Foreign (text : string)
| Errorf (format : string) (operands : list operand)
with operand : Type :=
| OpError (e : error)
| OpNil
| OpString (s : string).

Definition errInvalidOption : error := errors_New "invalid multislog option".
Definition errInvalidLogFileName : error := errors_New "invalid log file name".

(** A Go result pair [(value, error)]. *)
Inductive result (A : Type) : Type :=
| OK (a : A)
| Err (e : error).
Arguments OK {A} a.
Arguments Err {A} e.

Definition is_ok {A} (r : result A) : bool :=
  match r with OK _ => true | Err _ => false end.

(** A call that either returns or panics. *)
Inductive outcome (A : Type) : Type :=
| Returned (a : A)
| Panicked (e : error).
Arguments Returned {A} a.
Arguments Panicked {A} e.

(** [*time.Location], by the name of the zone. *)
Definition Location := string.
Definition UTC : Location := "UTC".

(** [time.Time]: an instant and the location it is displayed in. *)
Record Time := { instant : Z; location : Location }.

(** [t.In(loc)]: the same instant, displayed in [loc]. *)
Definition Time_In (t : Time) (loc : Location) : Time :=
  {| instant := instant t; location := loc |}.

(** [*os.File]. *)
Record File := { File_Name : string; File_fd : nat }.

Module slog.

Definition Level := Z.
Definition LevelDebug : Level := (-4)%Z.
Definition LevelInfo : Level := 0%Z.
Definition LevelWarn : Level := 4%Z.
Definition LevelError : Level := 8%Z.

Inductive Value :=
| StringValue (s : string)
| Int64Value (n : Z)
| BoolValue (b : bool).

Record Attr := { Key : string; Value_ : Value }.

(** [slog.Record], passed by value. *)
Record Record_ := {
  Time_ : Time;
  Message : string;
  Level_ : Level;
  Attrs : list Attr
}.

Definition set_Time (r : Record_) (t : Time) : Record_ :=
  {| Time_ := t; Message := Message r; Level_ := Level_ r; Attrs := Attrs r |}.

End slog.

(** What the package asks of the outside, in the order it asks. *)
Inductive Event :=
| EvHandle (sink : nat) (r : slog.Record_)     (* handlers[sink].Handle(ctx, r) *)
| EvSinkClose (sink : nat)                      (* handlers[sink].Close() *)
| EvExecutable                                  (* os.Executable() *)
| EvEvalSymlinks (path : string)                (* filepath.EvalSymlinks *)
| EvStat (name : string)                        (* os.Stat *)
| EvOpenFile (name : string) (flag perm : Z)    (* os.OpenFile *)
| EvLoadLocation (name : string)                (* time.LoadLocation *)
| EvFileClose (f : File)                        (* f.Close() *)
| EvSendMail (addr from : string) (to : list string) (msg : string)
| EvStderr (format : string) (e : error).       (* fmt.Fprintf(os.Stderr, ...) *)

(** Computations of the package: they read and change the world [W]
    (file system, network, the heap cells of the sinks) and leave a
    trace of the calls they made. *)
Definition M (W A : Type) : Type := W -> A * W * list Event.

Definition ret {W A} (a : A) : M W A := fun w => (a, w, []).

Definition bind {W A B} (m : M W A) (k : A -> M W B) : M W B :=
  fun w =>
    let '(a, w1, t1) := m w in
    let '(b, w2, t2) := k a w1 in
    (b, w2, t1 ++ t2).

(** A call out of the package: the event is recorded, then the callee
    runs on the world. *)
Definition call {W A} (ev : Event) (f : W -> A * W) : M W A :=
  fun w => let '(a, w1) := f w in (a, w1, [ev]).

(** A call out of the package that only inspects the world. *)
Definition ask {W A} (ev : Event) (f : W -> A) : M W A :=
  fun w => (f w, w, [ev]).

Definition emit {W} (ev : Event) : M W unit := fun w => (tt, w, [ev]).

Definition value {W A} (x : A * W * list Event) : A := fst (fst x).
Definition world {W A} (x : A * W * list Event) : W := snd (fst x).
Definition trace {W A} (x : A * W * list Event) : list Event := snd x.

Notation "x <- m ;; k" := (bind m (fun x => k))
  (at level 61, m at next level, right associativity).
Notation "m ;;; k" := (bind m (fun _ => k))
  (at level 61, right associativity).

Module Handler.

(** [slog.Handler], with the optional [Close() error] that
    [Multislog.Close] looks for by a type assertion.  The context
    argument is passed through unread everywhere in the package and is
    left out.  The sinks of the package answer [Enabled] from their
    fixed threshold alone. *)
Class Handler (W H : Type) := {
  Enabled : H -> slog.Level -> bool;
  Handle : H -> slog.Record_ -> W -> option error * W;
  WithAttrs : H -> list slog.Attr -> H;
  WithGroup : H -> string -> H;
  Closer : H -> option (W -> option error * W)
}.

End Handler.

(* ================================================================= *)
(** ** multi_handler.go *)

(** [type multihandler struct { tz *time.Location; handlers []slog.Handler }] *)
Record multihandler (H : Type) := {
  tz : option Location;
  handlers : list H
}.
Arguments tz {H} _.
Arguments handlers {H} _.

Section MultiHandler.
Context {W H : Type} `{Handler.Handler W H}.

Fixpoint Enabled_loop (hs : list H) (level : slog.Level) : bool :=
  match hs with
  | [] => false
  | h :: rest =>
      if Handler.Enabled h level then true else Enabled_loop rest level
  end.

(** [func (mh *multihandler) Enabled(ctx, level) bool] *)
Definition multihandler_Enabled (mh : multihandler H) (level : slog.Level)
  : bool :=
  Enabled_loop (handlers mh) level.

(** The range loop of [Handle]; [i] is the index of the head of [hs] in
    [mh.handlers]. *)
Fixpoint Handle_loop (i : nat) (hs : list H) (r : slog.Record_)
  : M W unit :=
  match hs with
  | [] => ret tt
  | h :: rest =>
      (if Handler.Enabled h (slog.Level_ r)
       then _ <- call (EvHandle i r) (Handler.Handle h r) ;; ret tt
       else ret tt) ;;;
      Handle_loop (S i) rest r
  end.

(** [func (mh *multihandler) Handle(ctx, r slog.Record) error] *)
Definition multihandler_Handle (mh : multihandler H) (r : slog.Record_)
  : M W (option error) :=
  let r := match tz mh with
           | Some l => slog.set_Time r (Time_In (slog.Time_ r) l)
           | None => r
           end in
  Handle_loop 0 (handlers mh) r ;;;
  ret None.

(** [func (mh *multihandler) WithAttrs(attrs []slog.Attr) slog.Handler]:
    the struct the method builds. *)
Definition multihandler_WithAttrs (mh : multihandler H)
  (attrs : list slog.Attr) : multihandler H :=
  let hs := map (fun h => Handler.WithAttrs h attrs) (handlers mh) in
  {| handlers := hs; tz := tz mh |}.

(** [func (mh *multihandler) WithGroup(name string) slog.Handler] *)
Definition multihandler_WithGroup (mh : multihandler H) (name : string)
  : multihandler H :=
  let hs := map (fun h => Handler.WithGroup h name) (handlers mh) in
  {| handlers := hs; tz := tz mh |}.

(** Dispatchers live on the heap and are used through pointers; the
    derive methods return the address of a fresh struct.  A pointer is
    the index of its cell. *)
Definition Heap := list (multihandler H).

Definition deref (heap : Heap) (p : nat) : option (multihandler H) :=
  nth_error heap p.

Definition new (heap : Heap) (obj : multihandler H) : nat * Heap :=
  (List.length heap, heap ++ [obj]).

(** [mh.WithAttrs(attrs)] through the pointer [mh]; [None] is the nil
    dereference. *)
Definition WithAttrs_at (heap : Heap) (mh : nat) (attrs : list slog.Attr)
  : option (nat * Heap) :=
  match deref heap mh with
  | Some obj => Some (new heap (multihandler_WithAttrs obj attrs))
  | None => None
  end.

Definition WithGroup_at (heap : Heap) (mh : nat) (name : string)
  : option (nat * Heap) :=
  match deref heap mh with
  | Some obj => Some (new heap (multihandler_WithGroup obj name))
  | None => None
  end.

(** [mh.Handle(ctx, r)] through the pointer [mh]. *)
Definition Handle_at (heap : Heap) (mh : nat) (r : slog.Record_)
  : option (M W (option error)) :=
  match deref heap mh with
  | Some obj => Some (multihandler_Handle obj r)
  | None => None
  end.

End MultiHandler.

(* ================================================================= *)
(** ** The outside of the package *)

(** [smtp.PlainAuth(identity, username, password, host)]. *)
Record smtpAuth := {
  auth_identity : string;
  auth_username : string;
  auth_password : string;
  auth_host : string
}.

(** The handlers of log/slog ([*slog.TextHandler], [*slog.JSONHandler]):
    a threshold, the writer, and the attributes and groups collected by
    [WithAttrs] and [WithGroup]. *)
Inductive Writer :=
| Stderr
| ToFile (f : File).

Record commonHandler := {
  opts_Level : slog.Level;
  w_ : Writer;
  preformattedAttrs : list slog.Attr;
  groups : list string
}.

(** The operating system and the libraries the package calls.  Calls
    that only inspect the world return a value; the others return the
    world they leave. *)
Record Outside (W : Type) := {
  os_Executable : W -> result string;
  filepath_EvalSymlinks : string -> W -> result string;
  os_Stat : string -> W -> result unit;
  os_OpenFile : string -> Z -> Z -> W -> result File * W;
  File_Close : File -> W -> option error * W;
  time_LoadLocation : string -> W -> result Location;
  smtp_SendMail :
    string -> smtpAuth -> string -> list string -> string ->
    W -> option error * W;
  (* the Handle methods of the log/slog handlers: text or JSON *)
  slog_commonHandler_Handle :
    bool -> commonHandler -> slog.Record_ -> W -> option error * W;
  (* Level.String, Time.Format(time.RFC3339) and the %v verb *)
  Level_String : slog.Level -> string;
  Time_Format_RFC3339 : Time -> string;
  fmt_v : slog.Value -> string
}.
Arguments os_Executable {W} _.
Arguments filepath_EvalSymlinks {W} _.
Arguments os_Stat {W} _.
Arguments os_OpenFile {W} _.
Arguments File_Close {W} _.
Arguments time_LoadLocation {W} _.
Arguments smtp_SendMail {W} _.
Arguments slog_commonHandler_Handle {W} _.
Arguments Level_String {W} _.
Arguments Time_Format_RFC3339 {W} _.
Arguments fmt_v {W} _.

Definition LF : string := String (ascii_of_nat 10) EmptyString.
Definition CRLF : string :=
  String (ascii_of_nat 13) (String (ascii_of_nat 10) EmptyString).

(* ================================================================= *)
(** ** smtp_client.go *)

Record smtpClient := {
  Host : string;
  Port : string;
  Username : string;
  Password : string;
  Sender : string;
  Recipient : string
}.

(** [func newSMTPClient(host, port, username, password, sender, recipient)] *)
Definition newSMTPClient (host port username password sender recipient : string)
  : smtpClient :=
  {| Host := host; Port := port; Username := username;
     Password := password; Sender := sender; Recipient := recipient |}.

Section SMTP.
Context {W : Type} (O : Outside W).

(** [func (sc *smtpClient) Send(subject, body, recipient string) error] *)
Definition smtpClient_Send (sc : smtpClient) (subject body recipient : string)
  : M W (option error) :=
  let addr := Host sc +++ ":" +++ Port sc in
  let auth := {| auth_identity := ""; auth_username := Username sc;
                 auth_password := Password sc; auth_host := Host sc |} in
  let msg := "To: " +++ recipient +++ CRLF +++ "Subject: " +++ subject
             +++ CRLF +++ CRLF +++ body in
  err <- call (EvSendMail addr (Sender sc) [recipient] msg)
              (smtp_SendMail O addr auth (Sender sc) [recipient] msg) ;;
  match err with
  | Some e =>
      ret (Some (Errorf "SMTP Client couldn't send mail. Error: %w" [OpError e]))
  | None => ret None
  end.

End SMTP.

(* ================================================================= *)
(** ** email_handler.go *)

Record emailHandler := {
  smtpClient_ : smtpClient;
  Level : slog.Level
}.

(** [func newEmailHandler(sc *smtpClient, level slog.Level) *emailHandler] *)
Definition newEmailHandler (sc : smtpClient) (level : slog.Level)
  : emailHandler :=
  {| Level := level; smtpClient_ := sc |}.

Section EmailHandler.
Context {W : Type} (O : Outside W).

(** [func (eh *emailHandler) Enabled(_, level) bool] *)
Definition emailHandler_Enabled (eh : emailHandler) (level : slog.Level)
  : bool :=
  (Level eh <=? level)%Z.

(** The buffer filled by [r.Attrs(func(a slog.Attr) bool {...})]. *)
Fixpoint attrs_buf (attrs : list slog.Attr) : string :=
  match attrs with
  | [] => ""
  | a :: rest =>
      (slog.Key a +++ "=" +++ fmt_v O (slog.Value_ a) +++ " ")
      +++ attrs_buf rest
  end.

Definition email_body (r : slog.Record_) : string :=
  "Level: " +++ Level_String O (slog.Level_ r) +++ LF +++
  "Time: " +++ Time_Format_RFC3339 O (slog.Time_ r) +++ LF +++
  "Message: " +++ slog.Message r +++ LF +++
  "Attributes: " +++ attrs_buf (slog.Attrs r).

(** [func (eh *emailHandler) Handle(_, r slog.Record) error] *)
Definition emailHandler_Handle (eh : emailHandler) (r : slog.Record_)
  : M W (option error) :=
  if (slog.Level_ r <? Level eh)%Z then ret None
  else
    let msg := email_body r in
    err <- smtpClient_Send O (smtpClient_ eh) "Log Alert" msg
             (Recipient (smtpClient_ eh)) ;;
    match err with
    | Some e => ret (Some (Errorf "logger couldn't send emailr: %w" [OpError e]))
    | None => ret None
    end.

(** [func (eh *emailHandler) WithAttrs(_ []slog.Attr) slog.Handler] *)
Definition emailHandler_WithAttrs (eh : emailHandler) (_ : list slog.Attr)
  : emailHandler := eh.

(** [func (eh *emailHandler) WithGroup(_ string) slog.Handler] *)
Definition emailHandler_WithGroup (eh : emailHandler) (_ : string)
  : emailHandler := eh.

End EmailHandler.

(* ================================================================= *)
(** ** The sinks the constructor options register *)

Inductive sink :=
| TextHandler (h : commonHandler)          (* slog.NewTextHandler *)
| JSONHandler (h : commonHandler)          (* slog.NewJSONHandler *)
| EmailHandler (eh : emailHandler).

(** [slog.NewTextHandler(w, &slog.HandlerOptions{Level: level})] and
    [slog.NewJSONHandler]. *)
Definition NewTextHandler (w : Writer) (level : slog.Level) : sink :=
  TextHandler {| opts_Level := level; w_ := w;
                 preformattedAttrs := []; groups := [] |}.

Definition NewJSONHandler (w : Writer) (level : slog.Level) : sink :=
  JSONHandler {| opts_Level := level; w_ := w;
                 preformattedAttrs := []; groups := [] |}.

Definition commonHandler_withAttrs (h : commonHandler) (attrs : list slog.Attr)
  : commonHandler :=
  {| opts_Level := opts_Level h; w_ := w_ h;
     preformattedAttrs := preformattedAttrs h ++ attrs;
     groups := groups h |}.

Definition commonHandler_withGroup (h : commonHandler) (name : string)
  : commonHandler :=
  {| opts_Level := opts_Level h; w_ := w_ h;
     preformattedAttrs := preformattedAttrs h;
     groups := groups h ++ [name] |}.

(** Running a method of a sink from the dispatcher: the calls the sink
    makes in turn are its own business. *)
Definition run {W A} (m : M W A) : W -> A * W :=
  fun w => (value (m w), world (m w)).

(** The sinks as handlers.  None of them has a [Close] method. *)
Definition sink_Handler {W} (O : Outside W) : Handler.Handler W sink :=
  {| Handler.Enabled h level :=
       match h with
       | TextHandler c | JSONHandler c => (opts_Level c <=? level)%Z
       | EmailHandler eh => emailHandler_Enabled eh level
       end;
     Handler.Handle h r :=
       match h with
       | TextHandler c => slog_commonHandler_Handle O false c r
       | JSONHandler c => slog_commonHandler_Handle O true c r
       | EmailHandler eh => run (emailHandler_Handle O eh r)
       end;
     Handler.WithAttrs h attrs :=
       match h with
       | TextHandler c => TextHandler (commonHandler_withAttrs c attrs)
       | JSONHandler c => JSONHandler (commonHandler_withAttrs c attrs)
       | EmailHandler eh => EmailHandler (emailHandler_WithAttrs eh attrs)
       end;
     Handler.WithGroup h name :=
       match h with
       | TextHandler c => TextHandler (commonHandler_withGroup c name)
       | JSONHandler c => JSONHandler (commonHandler_withGroup c name)
       | EmailHandler eh => EmailHandler (emailHandler_WithGroup eh name)
       end;
     Handler.Closer _ := None |}.

(* ================================================================= *)
(** ** multislog.go *)

(** [type Multislog struct]: the embedded [*slog.Logger] is kept by the
    dispatcher it was made from with [slog.New]. *)
Record Multislog (H : Type) := {
  Logger : option (multihandler H);
  logFile : option File;
  timezone : option Location;
  ms_handlers : list H
}.
Arguments Logger {H} _.
Arguments logFile {H} _.
Arguments timezone {H} _.
Arguments ms_handlers {H} _.

Definition set_Logger {H} (ms : Multislog H) (l : option (multihandler H)) :=
  {| Logger := l; logFile := logFile ms; timezone := timezone ms;
     ms_handlers := ms_handlers ms |}.
Definition set_logFile {H} (ms : Multislog H) (f : option File) :=
  {| Logger := Logger ms; logFile := f; timezone := timezone ms;
     ms_handlers := ms_handlers ms |}.
Definition set_timezone {H} (ms : Multislog H) (l : option Location) :=
  {| Logger := Logger ms; logFile := logFile ms; timezone := l;
     ms_handlers := ms_handlers ms |}.
Definition set_handlers {H} (ms : Multislog H) (hs : list H) :=
  {| Logger := Logger ms; logFile := logFile ms; timezone := timezone ms;
     ms_handlers := hs |}.

Definition O_WRONLY : Z := 1.
Definition O_RDWR : Z := 2.
Definition O_CREATE : Z := 64.
Definition O_TRUNC : Z := 512.
Definition O_APPEND : Z := 1024.
Definition O_ACCMODE : Z := 3.

Definition permOwnerRead : Z := 384.   (* 0o600 *)
Definition permWorldRead : Z := 420.   (* 0o644 *)

Definition PathSeparator : string := String filepath.Separator EmptyString.

Section Close.
Context {W H : Type} `{Handler.Handler W H} (O : Outside W).

(** The range loop of [Close]; [i] is the index of the head of [hs]. *)
Fixpoint Close_loop (i : nat) (hs : list H) : M W unit :=
  match hs with
  | [] => ret tt
  | h :: rest =>
      match Handler.Closer h with
      | Some close =>
          err <- call (EvSinkClose i) close ;;
          match err with
          | Some e =>
              emit (EvStderr ("multislog: failed to close handler: %v" +++ LF) e)
          | None => ret tt
          end
      | None => ret tt
      end ;;;
      Close_loop (S i) rest
  end.

(** [func (ms *Multislog) Close()]; the struct it leaves is returned. *)
Definition Multislog_Close (ms : Multislog H) : M W (Multislog H) :=
  (* Close handlers first *)
  Close_loop 0 (ms_handlers ms) ;;;
  (* Close log file last *)
  match logFile ms with
  | Some f =>
      err <- call (EvFileClose f) (File_Close O f) ;;
      match err with
      | Some e =>
          emit (EvStderr ("multislog: failed to close log file: %v" +++ LF) e)
      | None => ret tt
      end ;;;
      ret (set_logFile ms None)
  | None => ret ms
  end.

End Close.

Section OpenLogFile.
Context {W : Type} (O : Outside W).

(** The filename check shared by both revisions:
    [cleanName != filename || strings.Contains(cleanName, string(os.PathSeparator))]. *)
Definition invalid_name (filename : string) : bool :=
  let cleanName := filepath.Clean filename in
  negb (String.eqb cleanName filename)
  || strings.ContainsByte cleanName filepath.Separator.

(** The open flags and the permission that [openLogFile] assembles. *)
Definition assemble (allowRead clearOnRestart : bool) : Z * Z :=
  let flags := O_CREATE in
  let logFilePermission := permOwnerRead in
  let '(flags, logFilePermission) :=
    if allowRead then (Z.lor flags O_RDWR, permWorldRead)
    else (Z.lor flags O_WRONLY, logFilePermission) in
  let flags :=
    if clearOnRestart then Z.lor flags O_TRUNC else Z.lor flags O_APPEND in
  (flags, logFilePermission).

(** The last step of both revisions. *)
Definition open_with (filename logPath : string)
  (allowRead clearOnRestart : bool) : M W (result File) :=
  let '(flags, logFilePermission) := assemble allowRead clearOnRestart in
  r <- call (EvOpenFile logPath flags logFilePermission)
            (os_OpenFile O logPath flags logFilePermission) ;;
  match r with
  | Err err =>
      ret (Err (Errorf "couldn't open %v logfile: %w"
                  [OpString filename; OpError err]))
  | OK logFile => ret (OK logFile)
  end.

(** [func openLogFile(filename string, allowRead, clearOnRestart bool)]
    returning a file or an error, the revision with [os.Stat(baseDir)]. *)
Definition openLogFile (filename : string) (allowRead clearOnRestart : bool)
  : M W (result File) :=
  r <- ask EvExecutable (os_Executable O) ;;
  match r with
  | Err err => ret (Err (Errorf "resolve executable path: %w" [OpError err]))
  | OK exePath =>
  r <- ask (EvEvalSymlinks exePath) (filepath_EvalSymlinks O exePath) ;;
  match r with
  | Err err =>
      ret (Err (Errorf "resolve executable symlinks: %w" [OpError err]))
  | OK exePath =>
  let baseDir := filepath.Dir exePath in
  let cleanName := filepath.Clean filename in
  if negb (String.eqb cleanName filename)
     || strings.ContainsByte cleanName filepath.Separator
  then ret (Err (Errorf "%w: %q"
                   [OpError errInvalidLogFileName; OpString filename]))
  else
  let logPath := filepath.Join baseDir cleanName in
  (* Ensure the directory exists *)
  r <- ask (EvStat baseDir) (os_Stat O baseDir) ;;
  match r with
  | Err err =>
      ret (Err (Errorf "log directory does not exist: %w" [OpError err]))
  | OK _ =>
  if negb (strings.HasPrefix (logPath +++ PathSeparator)
                             (baseDir +++ PathSeparator))
  then ret (Err (Errorf "log file escapes executable directory: %w" [OpNil]))
  else open_with filename logPath allowRead clearOnRestart
  end end end.

(** The same function in the revision that resolves the joined path
    with [filepath.EvalSymlinks] and opens the resolved path. *)
Definition openLogFile_resolving (filename : string)
  (allowRead clearOnRestart : bool) : M W (result File) :=
  r <- ask EvExecutable (os_Executable O) ;;
  match r with
  | Err err => ret (Err (Errorf "resolve executable path: %w" [OpError err]))
  | OK exePath =>
  r <- ask (EvEvalSymlinks exePath) (filepath_EvalSymlinks O exePath) ;;
  match r with
  | Err err =>
      ret (Err (Errorf "resolve executable symlinks: %w" [OpError err]))
  | OK exePath =>
  let baseDir := filepath.Dir exePath in
  let cleanName := filepath.Clean filename in
  if negb (String.eqb cleanName filename)
     || strings.ContainsByte cleanName filepath.Separator
  then ret (Err (Errorf "%w: %q"
                   [OpError errInvalidLogFileName; OpString filename]))
  else
  let logPath := filepath.Join baseDir cleanName in
  r <- ask (EvEvalSymlinks logPath) (filepath_EvalSymlinks O logPath) ;;
  match r with
  | Err err => ret (Err (Errorf "resolve log path: %w" [OpError err]))
  | OK logPath =>
  if negb (strings.HasPrefix (logPath +++ PathSeparator)
                             (baseDir +++ PathSeparator))
  then ret (Err (Errorf "log file escapes executable directory: %w" [OpNil]))
  else open_with filename logPath allowRead clearOnRestart
  end end end.

End OpenLogFile.

Section Constructor.
Context {W : Type} (O : Outside W).

(** [type Option]: a function from a pointer to the [Multislog] under
    construction to an error; the option works on the struct behind the
    pointer and leaves it changed. *)
Definition Option : Type :=
  Multislog sink -> M W (option error * Multislog sink).

(** [func EnableTimezone(timezone string) Option] *)
Definition EnableTimezone (timezone_name : string) : Option :=
  fun ms =>
    r <- ask (EvLoadLocation timezone_name)
             (time_LoadLocation O timezone_name) ;;
    match r with
    | Err err =>
        ret (Some (Errorf "failed to fallback to UTC time zone: %w"
                     [OpError err]), ms)
    | OK tz => ret (None, set_timezone ms (Some tz))
    end.

(** [func EnableConsole(level slog.Level) Option] *)
Definition EnableConsole (level : slog.Level) : Option :=
  fun ms =>
    let consoleHandler := NewTextHandler Stderr level in
    ret (None, set_handlers ms (ms_handlers ms ++ [consoleHandler])).

(** [func EnableLogFile(level slog.Level, filename string,
    allowRead, clearOnRestart bool) Option] *)
Definition EnableLogFile (level : slog.Level) (filename : string)
  (allowRead clearOnRestart : bool) : Option :=
  fun ms =>
    r <- openLogFile O filename allowRead clearOnRestart ;;
    match r with
    | Err err => ret (Some err, ms)
    | OK file =>
        let ms := set_logFile ms (Some file) in
        let fileHandler := NewJSONHandler (ToFile file) level in
        ret (None, set_handlers ms (ms_handlers ms ++ [fileHandler]))
    end.

(** [func EnableEmail(level slog.Level, host, port, username, password,
    sender, recipient string) Option]; the source passes [port] for the
    host parameter of [newSMTPClient] and [host] for its port. *)
Definition EnableEmail (level : slog.Level)
  (host port username password sender recipient : string) : Option :=
  fun ms =>
    let sc := newSMTPClient port host username password sender recipient in
    let emailHandler := newEmailHandler sc level in
    ret (None, set_handlers ms (ms_handlers ms ++ [EmailHandler emailHandler])).

(** The loop of [New] over the options; an option that fails makes
    [New] panic. *)
Fixpoint New_loop (opts : list Option) (ms : Multislog sink)
  : M W (outcome (Multislog sink)) :=
  match opts with
  | [] => ret (Returned ms)
  | opt :: rest =>
      x <- opt ms ;;
      match fst x with
      | Some err =>
          ret (Panicked (Errorf "%w: %w"
                           [OpError errInvalidOption; OpError err]))
      | None => New_loop rest (snd x)
      end
  end.

(** [func New(opts ...Option) *Multislog] *)
Definition New (opts : list Option) : M W (outcome (Multislog sink)) :=
  let ms := {| Logger := None; logFile := None; timezone := None;
               ms_handlers := [] |} in
  let utc := UTC in
  let ms := set_timezone ms (Some utc) in
  r <- New_loop opts ms ;;
  match r with
  | Panicked e => ret (Panicked e)
  | Returned ms =>
      let mh := {| handlers := ms_handlers ms; tz := timezone ms |} in
      ret (Returned (set_Logger ms (Some mh)))
  end.

End Constructor.

(* ================================================================= *)
(** ** A small machine to run the package on

    A file system given by the nodes at its absolute paths, with
    symbolic links as last elements only, the heap cells of the test
    doubles of the package's tests, and the mail and log lines that left
    the process.  It is used to run the functions above on concrete
    inputs. *)

Module Sample.

Inductive node :=
| Directory
| Regular (perm : Z) (data : string)
| Symlink (target : string).

(** [type mockEmailHandler struct { closed bool; fail bool }] of
    email_handler_test.go. *)
Record mockEmailHandler := { closed : bool; fail : bool }.

Definition errSMTPFailure : error := errors_New "smtp failure".

Record machine := {
  exe : string;
  nodes : list (string * node);
  doubles : list mockEmailHandler;
  next_fd : nat;
  outbox : list string;
  written : list (Writer * slog.Record_ * list slog.Attr)
}.

Definition NUL : ascii := ascii_of_nat 0.

Fixpoint lookup (nodes : list (string * node)) (path : string)
  : option node :=
  match nodes with
  | [] => None
  | (p, n) :: rest => if String.eqb p path then Some n else lookup rest path
  end.

Fixpoint replace (nodes : list (string * node)) (path : string) (n : node)
  : list (string * node) :=
  match nodes with
  | [] => [(path, n)]
  | (p, m) :: rest =>
      if String.eqb p path then (p, n) :: rest
      else (p, m) :: replace rest path n
  end.

(** Follow the links at [path]; the last path may name nothing. *)
Fixpoint follow (fuel : nat) (nodes : list (string * node)) (path : string)
  : result string :=
  match fuel with
  | 0 => Err (Foreign "too many links")
  | S fuel =>
      match lookup nodes path with
      | Some (Symlink target) => follow fuel nodes target
      | _ => OK path
      end
  end.

Definition EvalSymlinks (path : string) (m : machine) : result string :=
  match follow 8 (nodes m) path with
  | Err e => Err e
  | OK p =>
      match lookup (nodes m) p with
      | Some _ => OK p
      | None => Err (Foreign "no such file or directory")
      end
  end.

Definition Stat (name : string) (m : machine) : result unit :=
  match EvalSymlinks name m with
  | OK _ => OK tt
  | Err e => Err e
  end.

Definition set_nodes (m : machine) (ns : list (string * node)) : machine :=
  {| exe := exe m; nodes := ns; doubles := doubles m;
     next_fd := S (next_fd m); outbox := outbox m; written := written m |}.

(** [open(2)]: links are followed, a directory cannot be opened for
    writing, a missing file is created in an existing directory when
    [O_CREATE] is set, an existing one is emptied when [O_TRUNC] is. *)
Definition OpenFile (name : string) (flag perm : Z) (m : machine)
  : result File * machine :=
  if strings.ContainsByte name NUL then (Err (Foreign "invalid argument"), m)
  else
    match follow 8 (nodes m) name with
    | Err e => (Err e, m)
    | OK p =>
        let f := {| File_Name := name; File_fd := next_fd m |} in
        match lookup (nodes m) p with
        | Some Directory => (Err (Foreign "is a directory"), m)
        | Some (Symlink _) => (Err (Foreign "too many links"), m)
        | Some (Regular mode data) =>
            if Z.testbit flag 9
            then (OK f, set_nodes m (replace (nodes m) p (Regular mode "")))
            else (OK f, set_nodes m (nodes m))
        | None =>
            if Z.testbit flag 6 then
              match lookup (nodes m) (filepath.Dir p) with
              | Some Directory =>
                  (OK f, set_nodes m (replace (nodes m) p (Regular perm "")))
              | _ => (Err (Foreign "no such file or directory"), m)
              end
            else (Err (Foreign "no such file or directory"), m)
        end
    end.

Definition LoadLocation (name : string) (m : machine) : result Location :=
  if String.eqb name "UTC" || String.eqb name "America/New_York"
     || String.eqb name "Asia/Hong_Kong"
  then OK name
  else Err (Foreign "unknown time zone").

Definition SendMail (addr : string) (a : smtpAuth) (from : string)
  (to : list string) (msg : string) (m : machine) : option error * machine :=
  (None,
   {| exe := exe m; nodes := nodes m; doubles := doubles m;
      next_fd := next_fd m; outbox := outbox m ++ [msg];
      written := written m |}).

Definition commonHandler_Handle (json : bool) (c : commonHandler)
  (r : slog.Record_) (m : machine) : option error * machine :=
  (None,
   {| exe := exe m; nodes := nodes m; doubles := doubles m;
      next_fd := next_fd m; outbox := outbox m;
      written := written m ++ [(w_ c, r, preformattedAttrs c)] |}).

Definition level_string (l : slog.Level) : string :=
  if (l <? 0)%Z then "DEBUG"
  else if (l <? 4)%Z then "INFO"
  else if (l <? 8)%Z then "WARN" else "ERROR".

Definition value_string (v : slog.Value) : string :=
  match v with
  | slog.StringValue s => s
  | slog.Int64Value n => if (n =? 0)%Z then "0" else "n"
  | slog.BoolValue b => if b then "true" else "false"
  end.

Definition outside : Outside machine :=
  {| os_Executable m := OK (exe m);
     filepath_EvalSymlinks := EvalSymlinks;
     os_Stat := Stat;
     os_OpenFile := OpenFile;
     File_Close _ m := (None, m);
     time_LoadLocation := LoadLocation;
     smtp_SendMail := SendMail;
     slog_commonHandler_Handle := commonHandler_Handle;
     Level_String := level_string;
     Time_Format_RFC3339 t := location t;
     fmt_v := value_string |}.

(** The methods of [*mockEmailHandler]; the handler is the index of its
    cell. *)
Definition mock_Close (p : nat) (m : machine) : option error * machine :=
  match nth_error (doubles m) p with
  | Some cell =>
      let cells :=
        firstn p (doubles m) ++ {| closed := true; fail := fail cell |}
        :: skipn (S p) (doubles m) in
      (if fail cell then Some errSMTPFailure else None,
       {| exe := exe m; nodes := nodes m; doubles := cells;
          next_fd := next_fd m; outbox := outbox m; written := written m |})
  | None => (None, m)
  end.

Definition mock_Handler : Handler.Handler machine nat :=
  {| Handler.Enabled _ _ := true;
     Handler.Handle _ _ m := (None, m);
     Handler.WithAttrs p _ := p;
     Handler.WithGroup p _ := p;
     Handler.Closer p := Some (mock_Close p) |}.


Definition m0 : machine :=
  {| exe := "/opt/app/multislog";
     nodes := [ ("/", Directory); ("/opt", Directory);
                ("/opt/app", Directory);
                ("/opt/app/multislog", Regular 493 "ELF");
                ("/opt/app/old.log", Regular 384 "first");
                ("/opt/app/link.log", Symlink "/etc/passwd");
                ("/etc", Directory);
                ("/etc/passwd", Regular 420 "root:x:0:0") ];
     doubles := [ {| closed := false; fail := true |};
                  {| closed := false; fail := false |} ];
     next_fd := 3;
     outbox := [];
     written := [] |}.

End Sample.

(* ================================================================= *)
(** ** Vocabulary of the statements *)




(** The handlers with their indices in the slice. *)
Definition indexed {H} (hs : list H) : list (nat * H) :=
  combine (seq 0 (List.length hs)) hs.

(** The record the sinks are to see: the timestamp in the zone of the
    dispatcher. *)
Definition localized (zone : option Location) (r : slog.Record_)
  : slog.Record_ :=
  match zone with
  | Some l =>
      {| slog.Time_ := {| instant := instant (slog.Time_ r); location := l |};
         slog.Message := slog.Message r;
         slog.Level_ := slog.Level_ r;
         slog.Attrs := slog.Attrs r |}
  | None => r
  end.

(** The close calls of a trace, without the diagnostics. *)
Definition is_close (ev : Event) : bool :=
  match ev with
  | EvSinkClose _ | EvFileClose _ => true
  | _ => false
  end.

Definition closes (t : list Event) : list Event := filter is_close t.

Definition is_diagnostic (ev : Event) : bool :=
  match ev with
  | EvStderr _ _ => true
  | _ => false
  end.

(** The indices, from [i] on, of the handlers that have a [Close]. *)
Fixpoint closers {W H} `{Handler.Handler W H} (i : nat) (hs : list H)
  : list nat :=
  match hs with
  | [] => []
  | h :: rest =>
      match Handler.Closer h with
      | Some _ => i :: closers (S i) rest
      | None => closers (S i) rest
      end
  end.

Definition is_open (ev : Event) : bool :=
  match ev with
  | EvOpenFile _ _ _ => true
  | _ => false
  end.

(** A handler that differs from [I] in its [Handle] only. *)
Definition with_Handle {W H} (I : Handler.Handler W H)
  (g : H -> slog.Record_ -> W -> option error * W) : Handler.Handler W H :=
  {| Handler.Enabled := @Handler.Enabled W H I;
     Handler.Handle := g;
     Handler.WithAttrs := @Handler.WithAttrs W H I;
     Handler.WithGroup := @Handler.WithGroup W H I;
     Handler.Closer := @Handler.Closer W H I |}.


(** [openLogFile] rejects [name]: whatever the two flags, it returns an
    error. *)
Definition rejects {W} (O : Outside W) (w : W) (name : string) : Prop :=
  forall allowRead clearOnRestart,
    is_ok (value (openLogFile O name allowRead clearOnRestart w)) = false.

(** A second [Close] right after a first one does nothing. *)
Definition second_Close_is_noop {W H} `{Handler.Handler W H}
  (O : Outside W) (ms : Multislog H) (w : W) : Prop :=
  let once := Multislog_Close O ms w in
  let twice := Multislog_Close O (value once) (world once) in
  trace twice = [] /\ world twice = world once /\ value twice = value once.

(* ================================================================= *)
(** ** Facts about byte strings and paths *)

Section StringFacts.








Lemma Split_no_sep (s : string) (sep : ascii) :
  strings.ContainsByte s sep = false -> strings.Split s sep = [s].
Proof.
  induction s as [|c s IH]; simpl; intros Hs; [reflexivity|].
  apply orb_false_iff in Hs as [Hc Hs].
  rewrite Hc, (IH Hs). reflexivity.
Qed.


End StringFacts.

Section PathFacts.

Local Abbreviation sep := filepath.Separator.




















(** A name without separator is clean, but for the empty name. *)
Lemma Clean_no_sep (f : string) :
  strings.ContainsByte f sep = false ->
  filepath.Clean f = if String.eqb f "" then "." else f.
Proof.
  intros Hf. unfold filepath.Clean.
  assert (Hr : filepath.rooted f = false).
  { destruct f as [|c f]; [reflexivity|]. simpl in Hf.
    apply orb_false_iff in Hf as [Hc _].
    unfold filepath.rooted, filepath.IsPathSeparator. exact Hc. }
  rewrite Hr, (Split_no_sep _ _ Hf).
  unfold filepath.clean_loop, filepath.clean_step. simpl fold_left.
  destruct (String.eqb_spec f ""); [reflexivity|].
  destruct (String.eqb_spec f "."); [now subst|].
  destruct (String.eqb_spec f ".."); [now subst|].
  reflexivity.
Qed.

(** The names that pass the check of [openLogFile]: the non-empty names
    without separator. *)
Lemma invalid_name_false (f : string) :
  invalid_name f = false
  <-> f <> "" /\ strings.ContainsByte f sep = false.
Proof.
  unfold invalid_name. split.
  - intros Hv. apply orb_false_iff in Hv as [Heq Hs].
    apply negb_false_iff, String.eqb_eq in Heq. rewrite Heq in Hs.
    split; [|assumption]. intros ->. discriminate.
  - intros [Hne Hs]. rewrite (Clean_no_sep _ Hs).
    apply String.eqb_neq in Hne. rewrite Hne, String.eqb_refl, Hs.
    reflexivity.
Qed.

End PathFacts.

(* ================================================================= *)
(** ** The path functions on the cases of the library's own tests *)

Module CleanTests.
Import filepath.

(** The table of Go's own test of [Clean] (path_test.go). *)
Definition cleantests : list (string * string) :=
  [ ("abc", "abc"); ("abc/def", "abc/def"); ("a/b/c", "a/b/c");
    (".", "."); ("..", ".."); ("../..", "../.."); ("../../abc", "../../abc");
    ("/abc", "/abc"); ("/", "/"); ("", ".");
    ("abc/", "abc"); ("abc/def/", "abc/def"); ("a/b/c/", "a/b/c");
    ("./", "."); ("../", ".."); ("../../", "../.."); ("/abc/", "/abc");
    ("abc//def//ghi", "abc/def/ghi"); ("//abc", "/abc"); ("///abc", "/abc");
    ("//abc//", "/abc"); ("abc//", "abc");
    ("abc/./def", "abc/def"); ("/./abc/def", "/abc/def"); ("abc/.", "abc");
    ("abc/def/ghi/../jkl", "abc/def/jkl"); ("abc/def/../ghi/../jkl", "abc/jkl");
    ("abc/def/..", "abc"); ("abc/def/../..", "."); ("/abc/def/../..", "/");
    ("abc/def/../../..", ".."); ("/abc/def/../../..", "/");
    ("abc/def/../../../ghi/jkl/../../../mno", "../../mno");
    ("/../abc", "/abc");
    ("abc/./../def", "def"); ("abc//./../def", "def");
    ("abc/../../././../def", "../../def") ].

Example Clean_cleantests :
  forallb (fun t => String.eqb (Clean (fst t)) (snd t)) cleantests = true.
Proof. vm_compute. reflexivity. Qed.

Example Dir_examples :
  Dir "/opt/app/multislog" = "/opt/app" /\ Dir "/multislog" = "/" /\
  Dir "multislog" = "." /\ Dir "" = "." /\ Dir "/a/b/" = "/a/b".
Proof. vm_compute. repeat split. Qed.

Example Join_examples :
  Join "/opt/app" "test.log" = "/opt/app/test.log" /\
  Join "/opt/app" ".." = "/opt" /\ Join "/opt/app" "." = "/opt/app" /\
  Join "/" "test.log" = "/test.log" /\ Join "/" ".." = "/".
Proof. vm_compute. repeat split. Qed.

End CleanTests.

(* ================================================================= *)
(** ** Facts about traced computations *)

Section MonadFacts.
Context {W : Type}.

Lemma run_bind {A B} (m : M W A) (k : A -> M W B) (w : W) :
  bind m k w
  = (value (k (value (m w)) (world (m w))),
     world (k (value (m w)) (world (m w))),
     trace (m w) ++ trace (k (value (m w)) (world (m w)))).
Proof.
  unfold bind, value, world, trace.
  destruct (m w) as [[a w1] t1]. simpl.
  destruct (k a w1) as [[b w2] t2]. reflexivity.
Qed.

Lemma trace_bind {A B} (m : M W A) (k : A -> M W B) (w : W) :
  trace (bind m k w) = trace (m w) ++ trace (k (value (m w)) (world (m w))).
Proof. now rewrite run_bind. Qed.

Lemma value_bind {A B} (m : M W A) (k : A -> M W B) (w : W) :
  value (bind m k w) = value (k (value (m w)) (world (m w))).
Proof. now rewrite run_bind. Qed.

Lemma world_bind {A B} (m : M W A) (k : A -> M W B) (w : W) :
  world (bind m k w) = world (k (value (m w)) (world (m w))).
Proof. now rewrite run_bind. Qed.

Lemma trace_call {A} (ev : Event) (f : W -> A * W) (w : W) :
  trace (call ev f w) = [ev].
Proof. unfold call, trace. now destruct (f w). Qed.


Lemma world_call {A} (ev : Event) (f : W -> A * W) (w : W) :
  world (call ev f w) = snd (f w).
Proof. unfold call, world. now destruct (f w). Qed.

End MonadFacts.

(* ================================================================= *)
(** ** The dispatcher *)

Section DispatchFacts.
Context {W H : Type} {I : Handler.Handler W H}.

Lemma Handle_loop_trace (hs : list H) (r : slog.Record_) :
  forall i w,
    trace (Handle_loop i hs r w)
    = map (fun ih => EvHandle (fst ih) r)
        (filter (fun ih => Handler.Enabled (snd ih) (slog.Level_ r))
           (combine (seq i (List.length hs)) hs)).
Proof.
  induction hs as [|h rest IH]; intros i w; [reflexivity|].
  simpl. rewrite trace_bind, IH.
  destruct (Handler.Enabled h (slog.Level_ r)); simpl.
  - now rewrite trace_bind, trace_call.
  - reflexivity.
Qed.

Lemma localized_Level (zone : option Location) (r : slog.Record_) :
  slog.Level_ (localized zone r) = slog.Level_ r.
Proof. now destruct zone. Qed.

Lemma Handle_trace (mh : multihandler H) (r : slog.Record_) (w : W) :
  trace (multihandler_Handle mh r w)
  = map (fun ih => EvHandle (fst ih) (localized (tz mh) r))
      (filter (fun ih => Handler.Enabled (snd ih) (slog.Level_ r))
         (indexed (handlers mh))).
Proof.
  unfold multihandler_Handle, indexed.
  rewrite trace_bind, Handle_loop_trace, app_nil_r.
  destruct (tz mh); reflexivity.
Qed.

Lemma Handle_value (mh : multihandler H) (r : slog.Record_) (w : W) :
  value (multihandler_Handle mh r w) = None.
Proof. unfold multihandler_Handle. now rewrite value_bind. Qed.

Lemma In_combine_seq (hs : list H) :
  forall a i h,
    In (i, h) (combine (seq a (List.length hs)) hs)
    <-> a <= i /\ nth_error hs (i - a) = Some h.
Proof.
  induction hs as [|x rest IH]; intros a i h; simpl.
  - split; [tauto|]. intros [_ Hn]. now destruct (i - a).
  - rewrite IH. split.
    + intros [Heq | [Hle Hn]].
      * inversion Heq; subst. rewrite Nat.sub_diag. split; [lia | reflexivity].
      * split; [lia|]. replace (i - a) with (S (i - S a)) by lia. exact Hn.
    + intros [Hle Hn]. destruct (Nat.eq_dec a i) as [->|Hne].
      * left. rewrite Nat.sub_diag in Hn. simpl in Hn. congruence.
      * right. split; [lia|].
        replace (i - a) with (S (i - S a)) in Hn by lia. exact Hn.
Qed.

Lemma In_indexed (hs : list H) (i : nat) (h : H) :
  In (i, h) (indexed hs) <-> nth_error hs i = Some h.
Proof.
  unfold indexed. rewrite In_combine_seq, Nat.sub_0_r.
  split; [tauto | intros; split; [lia | assumption]].
Qed.

Lemma Handle_invoked (mh : multihandler H) (r : slog.Record_) (w : W)
  (i : nat) (rec : slog.Record_) :
  In (EvHandle i rec) (trace (multihandler_Handle mh r w))
  <-> rec = localized (tz mh) r
      /\ exists h, nth_error (handlers mh) i = Some h
                   /\ Handler.Enabled h (slog.Level_ r) = true.
Proof.
  rewrite Handle_trace, in_map_iff. split.
  - intros ([j h] & Hev & Hin). simpl in Hev. inversion Hev; subst.
    apply filter_In in Hin as [Hin Hen]. apply In_indexed in Hin.
    split; [reflexivity|]. now exists h.
  - intros [-> (h & Hn & Hen)]. exists (i, h). split; [reflexivity|].
    apply filter_In. split; [now apply In_indexed | exact Hen].
Qed.

End DispatchFacts.


(** C7.  [Handle] of the dispatcher returns nil whatever the sinks
    return, and which sinks are invoked, with which record, does not
    depend on what any [Handle] of a sink does or returns: replacing
    the [Handle] methods of the sinks by arbitrary ones, from any state
    of the world, leaves the sequence of calls the same. *)
Theorem C7_sink_failures_are_not_surfaced :
  forall (W H : Type) (I : Handler.Handler W H)
         (g : H -> slog.Record_ -> W -> option error * W)
         (mh : multihandler H) (r : slog.Record_) (w w' : W),
    value (@multihandler_Handle W H (with_Handle I g) mh r w) = None
    /\ trace (@multihandler_Handle W H (with_Handle I g) mh r w)
       = trace (@multihandler_Handle W H I mh r w').
Proof.
  intros W H I g mh r w w'. split.
  - apply Handle_value.
  - now rewrite !Handle_trace.
Qed.

(* ================================================================= *)
(** ** The constructor and the time zone *)

Section ConstructorFacts.
Context {W : Type} (O : Outside W).

(** An option that leaves the [timezone] field as it found it. *)
Definition keeps_timezone (opt : Option) : Prop :=
  forall ms (w : W), timezone (snd (value (opt ms w))) = timezone ms.




Lemma New_loop_timezone (opts : list Option) :
  Forall keeps_timezone opts ->
  forall ms w ms',
    value (New_loop opts ms w) = Returned ms' ->
    timezone ms' = timezone ms.
Proof.
  induction 1 as [|opt rest Hopt _ IH]; intros ms w ms' Hret.
  - simpl in Hret. unfold ret, value in Hret. simpl in Hret. congruence.
  - simpl in Hret. rewrite value_bind in Hret.
    specialize (Hopt ms w).
    destruct (fst (value (opt ms w))).
    + discriminate Hret.
    + apply IH in Hret. congruence.
Qed.



Lemma EnableTimezone_loaded (name : string) (l : Location)
  (ms : Multislog sink) (w : W) :
  time_LoadLocation O name w = OK l ->
  EnableTimezone O name ms w
  = ((None, set_timezone ms (Some l)), w, [EvLoadLocation name]).
Proof.
  intros Hload. unfold EnableTimezone, bind, ask. now rewrite Hload.
Qed.

Lemma New_loop_cons (opt : Option) (rest : list Option)
  (ms : Multislog sink) :
  New_loop (opt :: rest) ms
  = (x <- opt ms ;;
     match fst x with
     | Some err =>
         ret (Panicked (Errorf "%w: %w"
                          [OpError errInvalidOption; OpError err]))
     | None => @New_loop W rest (snd x)
     end).
Proof. reflexivity. Qed.







End ConstructorFacts.


(* ================================================================= *)
(** ** Deriving dispatchers *)

Section DeriveFacts.
Context {W H : Type} {I : Handler.Handler W H}.

Lemma new_fresh (heap : @Heap H) (obj : multihandler H) :
  deref heap (fst (new heap obj)) = None.
Proof. unfold deref, new. simpl. now apply nth_error_None. Qed.

Lemma new_deref (heap : @Heap H) (obj : multihandler H) :
  deref (snd (new heap obj)) (fst (new heap obj)) = Some obj.
Proof.
  unfold deref, new. simpl.
  rewrite nth_error_app2, Nat.sub_diag by lia. reflexivity.
Qed.

Lemma new_frame (heap : @Heap H) (obj : multihandler H) (p : nat)
  (o : multihandler H) :
  deref heap p = Some o -> deref (snd (new heap obj)) p = Some o.
Proof.
  unfold deref, new. simpl. intros Hp.
  rewrite nth_error_app1; [assumption|].
  apply nth_error_Some. congruence.
Qed.

Lemma Handle_at_frame (heap : @Heap H) (obj : multihandler H) (p : nat)
  (o : multihandler H) (r : slog.Record_) :
  deref heap p = Some o ->
  Handle_at (snd (new heap obj)) p r = Handle_at heap p r.
Proof.
  intros Hp. unfold Handle_at. now rewrite (new_frame _ obj _ _ Hp), Hp.
Qed.

End DeriveFacts.

(** C8.  Deriving with attributes or with a group from the dispatcher
    at [mh] returns the address of a new dispatcher, whose sinks are
    the sinks of the original each derived with the same attributes or
    group, in the same order, and whose zone is the zone of the
    original.  Every dispatcher that existed, the original among them,
    is left as it was, with the sinks it had, and handling a record
    through the original does after the derivation what it did
    before. *)
Theorem C8_deriving_makes_a_new_dispatcher :
  forall (W H : Type) (I : Handler.Handler W H) (heap : @Heap H) (mh : nat)
         (obj : multihandler H) (attrs : list slog.Attr) (name : string),
    deref heap mh = Some obj ->
    (exists mh' heap',
        WithAttrs_at heap mh attrs = Some (mh', heap')
        /\ deref heap mh' = None
        /\ deref heap' mh'
           = Some {| tz := tz obj;
                     handlers :=
                       map (fun h => Handler.WithAttrs h attrs) (handlers obj) |}
        /\ (forall p o, deref heap p = Some o -> deref heap' p = Some o)
        /\ (forall r, @Handle_at W H I heap' mh r = Handle_at heap mh r))
    /\ (exists mh' heap',
           WithGroup_at heap mh name = Some (mh', heap')
           /\ deref heap mh' = None
           /\ deref heap' mh'
              = Some {| tz := tz obj;
                        handlers :=
                          map (fun h => Handler.WithGroup h name) (handlers obj) |}
           /\ (forall p o, deref heap p = Some o -> deref heap' p = Some o)
           /\ (forall r, @Handle_at W H I heap' mh r = Handle_at heap mh r)).
Proof.
  intros W H I heap mh obj attrs name Hmh. split.
  - exists (fst (new heap (multihandler_WithAttrs obj attrs))),
           (snd (new heap (multihandler_WithAttrs obj attrs))).
    unfold WithAttrs_at. rewrite Hmh. repeat split.
    + apply new_fresh.
    + apply new_deref.
    + intros p o. apply new_frame.
    + intros r. now apply Handle_at_frame with (o := obj).
  - exists (fst (new heap (multihandler_WithGroup obj name))),
           (snd (new heap (multihandler_WithGroup obj name))).
    unfold WithGroup_at. rewrite Hmh. repeat split.
    + apply new_fresh.
    + apply new_deref.
    + intros p o. apply new_frame.
    + intros r. now apply Handle_at_frame with (o := obj).
Qed.

(* ================================================================= *)
(** ** The email sink *)

Section EmailFacts.
Context {W : Type} (O : Outside W).

Lemma Send_trace (sc : smtpClient) (subject body recipient : string) (w : W) :
  trace (smtpClient_Send O sc subject body recipient w)
  = [EvSendMail (Host sc +++ ":" +++ Port sc) (Sender sc) [recipient]
       ("To: " +++ recipient +++ CRLF +++ "Subject: " +++ subject
        +++ CRLF +++ CRLF +++ body)].
Proof.
  unfold smtpClient_Send. rewrite trace_bind, trace_call.
  match goal with |- context [match ?e with Some _ => _ | None => _ end] =>
    destruct e end; reflexivity.
Qed.

Lemma emailHandler_Handle_trace (eh : emailHandler) (r : slog.Record_)
  (w : W) :
  trace (emailHandler_Handle O eh r w)
  = if (slog.Level_ r <? Level eh)%Z then []
    else [EvSendMail (Host (smtpClient_ eh) +++ ":" +++ Port (smtpClient_ eh))
            (Sender (smtpClient_ eh)) [Recipient (smtpClient_ eh)]
            ("To: " +++ Recipient (smtpClient_ eh) +++ CRLF
             +++ "Subject: " +++ "Log Alert" +++ CRLF +++ CRLF
             +++ email_body O r)].
Proof.
  unfold emailHandler_Handle.
  destruct (slog.Level_ r <? Level eh)%Z; [reflexivity|].
  rewrite trace_bind, Send_trace.
  match goal with |- context [match ?e with Some _ => _ | None => _ end] =>
    destruct e end; reflexivity.
Qed.

End EmailFacts.

(** C10.  For every attribute list and every group name, deriving from
    the email sink returns the sink itself, also when the sink is
    derived as one of the sinks of a dispatcher.  Handling a record
    with a derived email sink is handling it with the original, and the
    text of any mail it sends is made of the recipient, the fixed
    subject and the level, time, message and own attributes of the
    record: the attributes and group names given to the derivations do
    not occur in it. *)
Theorem C10_email_sink_drops_derived_attributes :
  forall (W : Type) (O : Outside W) (eh : emailHandler)
         (attrs : list slog.Attr) (name : string)
         (r : slog.Record_) (w : W),
    emailHandler_WithAttrs eh attrs = eh
    /\ emailHandler_WithGroup eh name = eh
    /\ @Handler.WithAttrs W sink (sink_Handler O) (EmailHandler eh) attrs
       = EmailHandler eh
    /\ @Handler.WithGroup W sink (sink_Handler O) (EmailHandler eh) name
       = EmailHandler eh
    /\ emailHandler_Handle O
         (emailHandler_WithGroup (emailHandler_WithAttrs eh attrs) name) r w
       = emailHandler_Handle O eh r w
    /\ forall addr from to msg,
         In (EvSendMail addr from to msg)
            (trace (emailHandler_Handle O
                      (emailHandler_WithGroup
                         (emailHandler_WithAttrs eh attrs) name) r w)) ->
         msg = "To: " +++ Recipient (smtpClient_ eh) +++ CRLF
               +++ "Subject: Log Alert" +++ CRLF +++ CRLF
               +++ email_body O r.
Proof.
  intros W O eh attrs name r w. repeat split.
  intros addr from to msg Hin.
  unfold emailHandler_WithGroup, emailHandler_WithAttrs in Hin.
  rewrite emailHandler_Handle_trace in Hin.
  destruct (slog.Level_ r <? Level eh)%Z; [contradiction|].
  destruct Hin as [Hev | []]. now inversion Hev.
Qed.

(* ================================================================= *)
(** ** Teardown *)

Section CloseFacts.
Context {W H : Type} {I : Handler.Handler W H} (O : Outside W).

Lemma closes_app (a b : list Event) : closes (a ++ b) = closes a ++ closes b.
Proof. apply filter_app. Qed.

(** The events of closing one sink that has a [Close]. *)
Lemma close_one_trace (i : nat) (close : W -> option error * W) (w : W) :
  exists diag,
    trace ((err <- call (EvSinkClose i) close ;;
            match err with
            | Some e =>
                emit (EvStderr
                        ("multislog: failed to close handler: %v" +++ LF) e)
            | None => ret tt
            end) w) = EvSinkClose i :: diag
    /\ forallb is_diagnostic diag = true.
Proof.
  rewrite trace_bind, trace_call.
  destruct (value (call (EvSinkClose i) close w)) as [e|].
  - eexists. split; reflexivity.
  - exists []. split; reflexivity.
Qed.

Lemma closes_diagnostics (diag : list Event) :
  forallb is_diagnostic diag = true -> closes diag = [].
Proof.
  induction diag as [|ev diag IH]; [reflexivity|]. simpl.
  intros Hd. apply andb_true_iff in Hd as [Hev Hd].
  destruct ev; try discriminate. now apply IH.
Qed.

Lemma Close_loop_cons (i : nat) (h : H) (rest : list H) :
  Close_loop i (h :: rest)
  = (match Handler.Closer h with
     | Some close =>
         err <- call (EvSinkClose i) close ;;
         match err with
         | Some e =>
             emit (EvStderr
                     ("multislog: failed to close handler: %v" +++ LF) e)
         | None => ret tt
         end
     | None => ret tt
     end ;;;
     Close_loop (S i) rest).
Proof. reflexivity. Qed.

Lemma Close_loop_closes (hs : list H) :
  forall i w,
    closes (trace (Close_loop i hs w)) = map EvSinkClose (closers i hs).
Proof.
  induction hs as [|h rest IH]; intros i w; [reflexivity|].
  rewrite Close_loop_cons, trace_bind, closes_app, IH. cbn [closers].
  destruct (Handler.Closer h) as [close|].
  - destruct (close_one_trace i close w) as (diag & -> & Hdiag).
    cbn [closes filter is_close]. fold (closes diag).
    now rewrite (closes_diagnostics _ Hdiag).
  - reflexivity.
Qed.


Lemma Close_loop_no_closers (hs : list H) :
  (forall h, In h hs -> Handler.Closer h = None) ->
  forall i w, Close_loop i hs w = (tt, w, []).
Proof.
  induction hs as [|h rest IH]; intros Hnone i w; [reflexivity|].
  rewrite Close_loop_cons, (Hnone h (or_introl eq_refl)), run_bind.
  rewrite IH; [reflexivity|]. intros h' Hin. apply Hnone. now right.
Qed.


(** The events of closing the file. *)
Lemma close_file_trace {A} (f : File) (a : A) (w : W) :
  exists diag,
    trace ((err <- call (EvFileClose f) (File_Close O f) ;;
            match err with
            | Some e =>
                emit (EvStderr
                        ("multislog: failed to close log file: %v" +++ LF) e)
            | None => ret tt
            end ;;;
            ret a) w) = EvFileClose f :: diag
    /\ forallb is_diagnostic diag = true.
Proof.
  rewrite trace_bind, trace_call, trace_bind.
  destruct (value (call (EvFileClose f) (File_Close O f) w)) as [e|].
  - eexists. split; reflexivity.
  - exists []. split; reflexivity.
Qed.

Lemma Close_value (ms : Multislog H) (w : W) :
  value (Multislog_Close O ms w) = set_logFile ms None.
Proof.
  unfold Multislog_Close. rewrite value_bind.
  destruct ms as [lg [f|] zone hs]; cbn [logFile]; [|reflexivity].
  now rewrite !value_bind.
Qed.

Lemma Close_closes (ms : Multislog H) (w : W) :
  closes (trace (Multislog_Close O ms w))
  = map EvSinkClose (closers 0 (ms_handlers ms))
    ++ match logFile ms with Some f => [EvFileClose f] | None => [] end.
Proof.
  unfold Multislog_Close. rewrite trace_bind, closes_app, Close_loop_closes.
  f_equal. destruct (logFile ms) as [f|]; [|reflexivity].
  destruct (close_file_trace f (set_logFile ms None)
              (world (Close_loop 0 (ms_handlers ms) w)))
    as (diag & -> & Hdiag).
  cbn [closes filter is_close]. fold (closes diag).
  now rewrite (closes_diagnostics _ Hdiag).
Qed.


Lemma Close_file_closed_iff (ms : Multislog H) (w : W) (f : File) :
  In (EvFileClose f) (trace (Multislog_Close O ms w)) <-> logFile ms = Some f.
Proof.
  assert (Hc : In (EvFileClose f) (trace (Multislog_Close O ms w))
               <-> In (EvFileClose f) (closes (trace (Multislog_Close O ms w)))).
  { unfold closes. rewrite filter_In. simpl. tauto. }
  rewrite Hc, Close_closes, in_app_iff, in_map_iff. split.
  - intros [(i & Hev & _) | Hin]; [discriminate|].
    destruct (logFile ms) as [g|]; [|destruct Hin].
    destruct Hin as [Heq | []]. congruence.
  - intros ->. right. now left.
Qed.

End CloseFacts.


Section SecondClose.
Context {W H : Type} {I : Handler.Handler W H} (O : Outside W).

Lemma Close_without_closers (ms : Multislog H) (w : W) :
  (forall h, In h (ms_handlers ms) -> Handler.Closer h = None) ->
  logFile ms = None ->
  Multislog_Close O ms w = (ms, w, []).
Proof.
  intros Hnone Hfile. unfold Multislog_Close.
  rewrite run_bind, (Close_loop_no_closers _ Hnone), Hfile. reflexivity.
Qed.

End SecondClose.

(** The struct of TestClose_EmailHandler_CloseErrorIgnored: two test
    doubles with a [Close], the first of which fails, and no file. *)
Definition doubles_ms : Multislog nat :=
  {| Logger := None; logFile := None; timezone := None;
     ms_handlers := [0; 1] |}.

Example second_Close_of_the_doubles :
  let once :=
    @Multislog_Close _ _ Sample.mock_Handler Sample.outside doubles_ms
      Sample.m0 in
  trace (@Multislog_Close _ _ Sample.mock_Handler Sample.outside
           (value once) (world once))
  = [ EvSinkClose 0;
      EvStderr ("multislog: failed to close handler: %v" +++ LF)
        Sample.errSMTPFailure;
      EvSinkClose 1 ].
Proof. vm_compute. reflexivity. Qed.

(** As in TestClose_EmailHandler_CloseErrorIgnored, the failure of the
    first double does not keep the second from being closed. *)
Example Close_of_the_doubles :
  Sample.doubles
    (world (@Multislog_Close _ _ Sample.mock_Handler Sample.outside
              doubles_ms Sample.m0))
  = [ {| Sample.closed := true; Sample.fail := true |};
      {| Sample.closed := true; Sample.fail := false |} ].
Proof. vm_compute. reflexivity. Qed.

(** C5, as stated, fails: with sinks that have a [Close], the second
    teardown calls [Close] on each of them again (and reports the
    failure of the first one again). *)
Lemma C5_counterexample :
  ~ @second_Close_is_noop _ _ Sample.mock_Handler Sample.outside doubles_ms
      Sample.m0.
Proof.
  unfold second_Close_is_noop. intros [Htrace _].
  vm_compute in Htrace. discriminate Htrace.
Qed.

(** C5, amended.  A teardown leaves the file handle cleared, so a
    second teardown does not close the file again and leaves the struct
    as the first one left it; it does call [Close] again on every sink
    that has one, in the order of registration.  When no sink has a
    [Close] the second teardown makes no call at all and leaves the
    world as it was; this is so for every [Multislog] whose sinks are
    the console, file and email sinks that the options register. *)
Theorem C5_second_Close_spares_the_file :
  forall (W H : Type) (I : Handler.Handler W H) (O : Outside W)
         (ms : Multislog H) (w : W),
    let once := Multislog_Close O ms w in
    let twice := Multislog_Close O (value once) (world once) in
    logFile (value once) = None
    /\ value twice = value once
    /\ (forall f, ~ In (EvFileClose f) (trace twice))
    /\ closes (trace twice) = map EvSinkClose (closers 0 (ms_handlers ms))
    /\ ((forall h, In h (ms_handlers ms) -> Handler.Closer h = None) ->
        trace twice = [] /\ world twice = world once)
    /\ (forall (ms' : Multislog sink),
          @second_Close_is_noop W sink (sink_Handler O) O ms' w).
Proof.
  intros W H I O ms w once twice. subst once twice.
  rewrite !Close_value. repeat split.
  - intros f Hin. apply Close_file_closed_iff in Hin. discriminate Hin.
  - rewrite Close_closes. apply app_nil_r.
  - rewrite Close_without_closers; [reflexivity | assumption | reflexivity].
  - rewrite Close_without_closers; [reflexivity | assumption | reflexivity].
  - rewrite Close_value.
    rewrite (@Close_without_closers W sink (sink_Handler O));
      reflexivity.
  - rewrite Close_value.
    rewrite (@Close_without_closers W sink (sink_Handler O));
      reflexivity.
  - now rewrite !Close_value.
Qed.

(* ================================================================= *)
(** ** The log-file sandbox *)

Section OpenLogFileFacts.
Context {W : Type} (O : Outside W).

Lemma assemble_eq (allowRead clearOnRestart : bool) :
  assemble allowRead clearOnRestart
  = ((O_CREATE + (if allowRead then O_RDWR else O_WRONLY)
      + (if clearOnRestart then O_TRUNC else O_APPEND))%Z,
     if allowRead then permWorldRead else permOwnerRead).
Proof. destruct allowRead, clearOnRestart; reflexivity. Qed.


(** [open_with] is the call of [os.OpenFile] with the assembled flags. *)
Lemma open_with_eq (filename logPath : string)
  (allowRead clearOnRestart : bool) (w : W) :
  let flags := fst (assemble allowRead clearOnRestart) in
  let perm := snd (assemble allowRead clearOnRestart) in
  let opened := os_OpenFile O logPath flags perm w in
  open_with O filename logPath allowRead clearOnRestart w
  = (match fst opened with
     | OK f => OK f
     | Err err =>
         Err (Errorf "couldn't open %v logfile: %w"
                [OpString filename; OpError err])
     end,
     snd opened,
     [EvOpenFile logPath flags perm]).
Proof.
  unfold open_with. destruct (assemble allowRead clearOnRestart) as [fl pm].
  cbn [fst snd]. unfold bind, call.
  destruct (os_OpenFile O logPath fl pm w) as [[f|e] w']; reflexivity.
Qed.

(** [openLogFile], case by case. *)
Lemma openLogFile_eq (filename : string) (allowRead clearOnRestart : bool)
  (w : W) :
  openLogFile O filename allowRead clearOnRestart w
  = match os_Executable O w with
    | Err err =>
        (Err (Errorf "resolve executable path: %w" [OpError err]), w,
         [EvExecutable])
    | OK exePath =>
        match filepath_EvalSymlinks O exePath w with
        | Err err =>
            (Err (Errorf "resolve executable symlinks: %w" [OpError err]), w,
             [EvExecutable; EvEvalSymlinks exePath])
        | OK resolved =>
            let baseDir := filepath.Dir resolved in
            let logPath := filepath.Join baseDir (filepath.Clean filename) in
            if invalid_name filename then
              (Err (Errorf "%w: %q"
                      [OpError errInvalidLogFileName; OpString filename]), w,
               [EvExecutable; EvEvalSymlinks exePath])
            else
              match os_Stat O baseDir w with
              | Err err =>
                  (Err (Errorf "log directory does not exist: %w"
                          [OpError err]), w,
                   [EvExecutable; EvEvalSymlinks exePath; EvStat baseDir])
              | OK _ =>
                  if strings.HasPrefix (logPath +++ PathSeparator)
                                       (baseDir +++ PathSeparator)
                  then
                    let y := open_with O filename logPath allowRead
                               clearOnRestart w in
                    (value y, world y,
                     [EvExecutable; EvEvalSymlinks exePath; EvStat baseDir]
                     ++ trace y)
                  else
                    (Err (Errorf "log file escapes executable directory: %w"
                            [OpNil]), w,
                     [EvExecutable; EvEvalSymlinks exePath; EvStat baseDir])
              end
        end
    end.
Proof.
  unfold openLogFile, invalid_name, bind, ask.
  destruct (os_Executable O w) as [exePath|e]; [|reflexivity].
  destruct (filepath_EvalSymlinks O exePath w) as [resolved|e]; [|reflexivity].
  cbv zeta.
  destruct (negb (String.eqb (filepath.Clean filename) filename)
            || strings.ContainsByte (filepath.Clean filename) filepath.Separator);
    [reflexivity|].
  destruct (os_Stat O (filepath.Dir resolved) w) as [u|e]; [|reflexivity].
  destruct (strings.HasPrefix _ _); [|reflexivity].
  cbn [negb]. unfold value, world, trace.
  destruct (open_with O filename _ allowRead clearOnRestart w) as [[r w'] t].
  reflexivity.
Qed.

(** The revision that resolves the joined path, case by case. *)
Lemma openLogFile_resolving_eq (filename : string)
  (allowRead clearOnRestart : bool) (w : W) :
  openLogFile_resolving O filename allowRead clearOnRestart w
  = match os_Executable O w with
    | Err err =>
        (Err (Errorf "resolve executable path: %w" [OpError err]), w,
         [EvExecutable])
    | OK exePath =>
        match filepath_EvalSymlinks O exePath w with
        | Err err =>
            (Err (Errorf "resolve executable symlinks: %w" [OpError err]), w,
             [EvExecutable; EvEvalSymlinks exePath])
        | OK resolved =>
            let baseDir := filepath.Dir resolved in
            let joined := filepath.Join baseDir (filepath.Clean filename) in
            if invalid_name filename then
              (Err (Errorf "%w: %q"
                      [OpError errInvalidLogFileName; OpString filename]), w,
               [EvExecutable; EvEvalSymlinks exePath])
            else
              match filepath_EvalSymlinks O joined w with
              | Err err =>
                  (Err (Errorf "resolve log path: %w" [OpError err]), w,
                   [EvExecutable; EvEvalSymlinks exePath;
                    EvEvalSymlinks joined])
              | OK logPath =>
                  if strings.HasPrefix (logPath +++ PathSeparator)
                                       (baseDir +++ PathSeparator)
                  then
                    let y := open_with O filename logPath allowRead
                               clearOnRestart w in
                    (value y, world y,
                     [EvExecutable; EvEvalSymlinks exePath;
                      EvEvalSymlinks joined] ++ trace y)
                  else
                    (Err (Errorf "log file escapes executable directory: %w"
                            [OpNil]), w,
                     [EvExecutable; EvEvalSymlinks exePath;
                      EvEvalSymlinks joined])
              end
        end
    end.
Proof.
  unfold openLogFile_resolving, invalid_name, bind, ask.
  destruct (os_Executable O w) as [exePath|e]; [|reflexivity].
  destruct (filepath_EvalSymlinks O exePath w) as [resolved|e]; [|reflexivity].
  cbv zeta.
  destruct (negb (String.eqb (filepath.Clean filename) filename)
            || strings.ContainsByte (filepath.Clean filename) filepath.Separator);
    [reflexivity|].
  destruct (filepath_EvalSymlinks O _ w) as [logPath|e]; [|reflexivity].
  destruct (strings.HasPrefix _ _); [|reflexivity].
  cbn [negb]. unfold value, world, trace.
  destruct (open_with O filename _ allowRead clearOnRestart w) as [[r w'] t].
  reflexivity.
Qed.

(** A successful [openLogFile] made exactly one call of [os.OpenFile],
    with the assembled flags, and returns the file of that call. *)
Lemma openLogFile_OK (filename : string) (allowRead clearOnRestart : bool)
  (w : W) (f : File) :
  value (openLogFile O filename allowRead clearOnRestart w) = OK f ->
  exists logPath,
    filter is_open (trace (openLogFile O filename allowRead clearOnRestart w))
    = [EvOpenFile logPath (fst (assemble allowRead clearOnRestart))
         (snd (assemble allowRead clearOnRestart))]
    /\ os_OpenFile O logPath (fst (assemble allowRead clearOnRestart))
         (snd (assemble allowRead clearOnRestart)) w
       = (OK f, world (openLogFile O filename allowRead clearOnRestart w)).
Proof.
  rewrite openLogFile_eq.
  destruct (os_Executable O w) as [exePath|e]; [|discriminate].
  destruct (filepath_EvalSymlinks O exePath w) as [resolved|e]; [|discriminate].
  cbv zeta. destruct (invalid_name filename); [discriminate|].
  destruct (os_Stat O _ w) as [u|e]; [|discriminate].
  destruct (strings.HasPrefix _ _); [|discriminate].
  rewrite open_with_eq. cbv zeta. cbn [value world trace fst snd].
  intros Hf. eexists. split; [reflexivity|].
  destruct (os_OpenFile O _ _ _ w) as [[g|e] w']; cbn [fst snd] in *;
    [congruence | discriminate].
Qed.

End OpenLogFileFacts.

(** C9.  When [openLogFile] returns a file, it is the file returned by
    its one call of [os.OpenFile], and the flags and permission of that
    call are: create-if-absent always; read-write access and mode 0644
    when [allowRead] is set, write-only access and mode 0600 otherwise;
    truncate when [clearOnRestart] is set, append otherwise. *)
Theorem C9_open_flags_and_permission :
  forall (W : Type) (O : Outside W) (filename : string)
         (allowRead clearOnRestart : bool) (w : W) (f : File),
    value (openLogFile O filename allowRead clearOnRestart w) = OK f ->
    exists logPath flags perm,
      filter is_open
        (trace (openLogFile O filename allowRead clearOnRestart w))
      = [EvOpenFile logPath flags perm]
      /\ os_OpenFile O logPath flags perm w
         = (OK f, world (openLogFile O filename allowRead clearOnRestart w))
      /\ Z.land flags O_CREATE = O_CREATE
      /\ Z.land flags O_ACCMODE = (if allowRead then O_RDWR else O_WRONLY)
      /\ Z.land flags O_TRUNC = (if clearOnRestart then O_TRUNC else 0%Z)
      /\ Z.land flags O_APPEND = (if clearOnRestart then 0%Z else O_APPEND)
      /\ flags = (O_CREATE + (if allowRead then O_RDWR else O_WRONLY)
                  + (if clearOnRestart then O_TRUNC else O_APPEND))%Z
      /\ perm = (if allowRead then 420%Z else 384%Z).
Proof.
  intros W O filename allowRead clearOnRestart w f Hf.
  apply openLogFile_OK in Hf as (logPath & Htrace & Hopen).
  exists logPath, (fst (assemble allowRead clearOnRestart)),
         (snd (assemble allowRead clearOnRestart)).
  split; [exact Htrace|]. split; [exact Hopen|].
  rewrite assemble_eq. cbn [fst snd].
  destruct allowRead, clearOnRestart; repeat split.
Qed.

Section SandboxFacts.
Context {W : Type} (O : Outside W) (w : W).

Local Abbreviation sep := filepath.Separator.



(** A name that fails the check on names is rejected on every system. *)
Lemma rejects_invalid_name (name : string) :
  invalid_name name = true -> rejects O w name.
Proof.
  intros Hinv allowRead clearOnRestart. rewrite openLogFile_eq.
  destruct (os_Executable O w) as [exePath|e]; [|reflexivity].
  destruct (filepath_EvalSymlinks O exePath w) as [resolved|e]; [|reflexivity].
  cbv zeta. now rewrite Hinv.
Qed.







End SandboxFacts.




(** When the executable is directly in the root directory, the
    comparison with the doubled separator refuses every name. *)
Example executable_in_the_root_directory :
  let m :=
    {| Sample.exe := "/multislog";
       Sample.nodes := [ ("/", Sample.Directory);
                         ("/multislog", Sample.Regular 493 "ELF") ];
       Sample.doubles := []; Sample.next_fd := 3;
       Sample.outbox := []; Sample.written := [] |} in
  openLogFile Sample.outside "test.log" false true m
  = (Err (Errorf "log file escapes executable directory: %w" [OpNil]), m,
     [EvExecutable; EvEvalSymlinks "/multislog"; EvStat "/"]).
Proof. vm_compute. reflexivity. Qed.

(* ================================================================= *)
(** ** Links in the directory of the executable *)

(** The event looked for is not in a trace that is known. *)
Ltac no_such_event :=
  cbn [trace snd In app]; intuition discriminate.

Section ResolvingRevision.
Context {W : Type} (O : Outside W).

(** In the revision that resolves the joined path, a path that resolves
    out of the base directory is refused and nothing is opened. *)
Lemma resolving_refuses_outside (filename : string)
  (allowRead clearOnRestart : bool) (w : W)
  (exePath resolved target : string) :
  os_Executable O w = OK exePath ->
  filepath_EvalSymlinks O exePath w = OK resolved ->
  invalid_name filename = false ->
  filepath_EvalSymlinks O
    (filepath.Join (filepath.Dir resolved) (filepath.Clean filename)) w
  = OK target ->
  strings.HasPrefix (target +++ PathSeparator)
                    (filepath.Dir resolved +++ PathSeparator) = false ->
  openLogFile_resolving O filename allowRead clearOnRestart w
  = (Err (Errorf "log file escapes executable directory: %w" [OpNil]), w,
     [EvExecutable; EvEvalSymlinks exePath;
      EvEvalSymlinks
        (filepath.Join (filepath.Dir resolved) (filepath.Clean filename))]).
Proof.
  intros Hexe Hres Hinv Htarget Hout.
  rewrite openLogFile_resolving_eq, Hexe, Hres. cbv zeta.
  now rewrite Hinv, Htarget, Hout.
Qed.

(** In that revision every path given to [os.OpenFile] is the resolved
    joined path and lies under the base directory. *)
Lemma resolving_opens_under_base (filename : string)
  (allowRead clearOnRestart : bool) (w : W) (p : string) (flag perm : Z) :
  In (EvOpenFile p flag perm)
     (trace (openLogFile_resolving O filename allowRead clearOnRestart w)) ->
  exists exePath resolved,
    os_Executable O w = OK exePath
    /\ filepath_EvalSymlinks O exePath w = OK resolved
    /\ filepath_EvalSymlinks O
         (filepath.Join (filepath.Dir resolved) (filepath.Clean filename)) w
       = OK p
    /\ strings.HasPrefix (p +++ PathSeparator)
                         (filepath.Dir resolved +++ PathSeparator) = true.
Proof.
  rewrite openLogFile_resolving_eq.
  destruct (os_Executable O w) as [exePath|e] eqn:Hexe;
    [|no_such_event].
  destruct (filepath_EvalSymlinks O exePath w) as [resolved|e] eqn:Hres;
    [|no_such_event].
  cbv zeta. destruct (invalid_name filename);
    [no_such_event|].
  destruct (filepath_EvalSymlinks O
              (filepath.Join (filepath.Dir resolved) (filepath.Clean filename))
              w) as [target|e] eqn:Htarget;
    [|no_such_event].
  destruct (strings.HasPrefix _ _) eqn:Hpre;
    [|no_such_event].
  rewrite open_with_eq. cbv zeta. cbn [trace snd app In].
  intros [Hev | [Hev | [Hev | [Hev | []]]]]; try discriminate.
  inversion Hev; subst. now exists exePath, resolved.
Qed.

(** The revision with [os.Stat] opens the joined path as it is. *)
Lemma openLogFile_opens_joined (filename : string)
  (allowRead clearOnRestart : bool) (w : W) (p : string) (flag perm : Z) :
  In (EvOpenFile p flag perm)
     (trace (openLogFile O filename allowRead clearOnRestart w)) ->
  exists exePath resolved,
    os_Executable O w = OK exePath
    /\ filepath_EvalSymlinks O exePath w = OK resolved
    /\ p = filepath.Join (filepath.Dir resolved) (filepath.Clean filename)
    /\ forall q, ~ In (EvEvalSymlinks q)
                   (skipn 2 (trace (openLogFile O filename allowRead
                                      clearOnRestart w))).
Proof.
  rewrite openLogFile_eq.
  destruct (os_Executable O w) as [exePath|e] eqn:Hexe;
    [|no_such_event].
  destruct (filepath_EvalSymlinks O exePath w) as [resolved|e] eqn:Hres;
    [|no_such_event].
  cbv zeta. destruct (invalid_name filename);
    [no_such_event|].
  destruct (os_Stat O _ w) as [u|e];
    [|no_such_event].
  destruct (strings.HasPrefix _ _) eqn:Hpre;
    [|no_such_event].
  rewrite open_with_eq. cbv zeta. cbn [trace snd app skipn In].
  intros [Hev | [Hev | [Hev | [Hev | []]]]]; try discriminate.
  inversion Hev; subst. exists exePath, resolved.
  repeat (split; [first [assumption | reflexivity]|]).
  intros q Hq. cbn [In] in Hq. intuition discriminate.
Qed.

End ResolvingRevision.

(** The separator appended to both sides keeps a sibling directory
    whose name starts like the base directory out. *)
Example sibling_directory :
  strings.HasPrefix "/base-evil/x.log" "/base" = true
  /\ strings.HasPrefix ("/base-evil/x.log" +++ PathSeparator)
                       ("/base" +++ PathSeparator) = false
  /\ strings.HasPrefix ("/base/x.log" +++ PathSeparator)
                       ("/base" +++ PathSeparator) = true.
Proof. vm_compute. repeat split. Qed.

(** C4.  The claim holds of the revision that resolves the joined path
    ([resolving_refuses_outside], [resolving_opens_under_base]) and
    fails on the revision with [os.Stat]: there the joined path is
    compared unresolved and opened as it is.  On the sample machine the
    directory of the executable holds a link "link.log" to /etc/passwd;
    the joined path resolves to /etc/passwd, which is not under
    /opt/app, yet [openLogFile] returns a file, after a single
    [filepath.EvalSymlinks] (of the executable) and a call of
    [os.OpenFile] that follows the link and empties /etc/passwd.  The
    resolving revision refuses the same name without opening
    anything. *)
Theorem C4_link_out_of_the_sandbox_is_opened :
  let joined := filepath.Join "/opt/app" (filepath.Clean "link.log") in
  let x := openLogFile Sample.outside "link.log" false true Sample.m0 in
  filepath_EvalSymlinks Sample.outside joined Sample.m0 = OK "/etc/passwd"
  /\ strings.HasPrefix ("/etc/passwd" +++ PathSeparator)
                       ("/opt/app" +++ PathSeparator) = false
  /\ value x = OK {| File_Name := "/opt/app/link.log"; File_fd := 3 |}
  /\ trace x = [EvExecutable; EvEvalSymlinks "/opt/app/multislog";
                EvStat "/opt/app";
                EvOpenFile "/opt/app/link.log" 577 384]
  /\ Sample.lookup (Sample.nodes Sample.m0) "/etc/passwd"
     = Some (Sample.Regular 420 "root:x:0:0")
  /\ Sample.lookup (Sample.nodes (world x)) "/etc/passwd"
     = Some (Sample.Regular 420 "")
  /\ openLogFile_resolving Sample.outside "link.log" false true Sample.m0
     = (Err (Errorf "log file escapes executable directory: %w" [OpNil]),
        Sample.m0,
        [EvExecutable; EvEvalSymlinks "/opt/app/multislog";
         EvEvalSymlinks "/opt/app/link.log"]).
Proof. vm_compute. repeat split. Qed.

(** The resolving revision refuses a plain name whose file does not
    exist yet, since [filepath.EvalSymlinks] fails on it. *)
Example resolving_refuses_a_new_file :
  value (openLogFile_resolving Sample.outside "test.log" false true Sample.m0)
  = Err (Errorf "resolve log path: %w"
           [OpError (Foreign "no such file or directory")]).
Proof. vm_compute. reflexivity. Qed.

(* ================================================================= *)
(** ** The package on the sample machine *)

Definition sample_file : File :=
  {| File_Name := "/opt/app/test.log"; File_fd := 3 |}.

Definition sample_record : slog.Record_ :=
  {| slog.Time_ := {| instant := 1700000000; location := "Local" |};
     slog.Message := "disk almost full";
     slog.Level_ := slog.LevelWarn;
     slog.Attrs := [ {| slog.Key := "free";
                        slog.Value_ := slog.Int64Value 0 |} ] |}.

Definition sample_attr : slog.Attr :=
  {| slog.Key := "request"; slog.Value_ := slog.StringValue "42" |}.

(** Console at debug, file at info, email at error. *)
Definition sample_mh : multihandler sink :=
  {| tz := Some "Asia/Hong_Kong";
     handlers :=
       [ NewTextHandler Stderr slog.LevelDebug;
         NewJSONHandler (ToFile sample_file) slog.LevelInfo;
         EmailHandler
           (newEmailHandler
              (newSMTPClient "smtp.example.org" "465" "admin" "secret"
                 "from@example.org" "to@example.org")
              slog.LevelError) ] |}.

Definition sample_ms : Multislog sink :=
  {| Logger := Some sample_mh;
     logFile := Some sample_file;
     timezone := tz sample_mh;
     ms_handlers := handlers sample_mh |}.

(** A warning reaches the console and the file, not the email sink, and
    both see it in the zone of the dispatcher. *)
Example sample_dispatch :
  trace (@multihandler_Handle _ _ (sink_Handler Sample.outside)
           sample_mh sample_record Sample.m0)
  = [ EvHandle 0 (localized (Some "Asia/Hong_Kong") sample_record);
      EvHandle 1 (localized (Some "Asia/Hong_Kong") sample_record) ].
Proof. vm_compute. reflexivity. Qed.

(** After deriving with an attribute, the original dispatcher writes
    without it and the derived one with it. *)
Example sample_derivation :
  let I := sink_Handler Sample.outside in
  let derived := @multihandler_WithAttrs _ _ I sample_mh [sample_attr] in
  map (fun x => snd x)
    (Sample.written
       (world (@multihandler_Handle _ _ I sample_mh sample_record Sample.m0)))
  = [ []; [] ]
  /\ map (fun x => snd x)
       (Sample.written
          (world (@multihandler_Handle _ _ I derived sample_record Sample.m0)))
     = [ [sample_attr]; [sample_attr] ].
Proof. vm_compute. split; reflexivity. Qed.



(** C5 on the sample machine, for a [Multislog] with a file and the
    sinks of the options: the file is closed by the first teardown
    only. *)
Lemma C5_witness :
  let I := sink_Handler Sample.outside in
  let once := @Multislog_Close _ _ I Sample.outside sample_ms Sample.m0 in
  let twice :=
    @Multislog_Close _ _ I Sample.outside (value once) (world once) in
  trace once = [EvFileClose sample_file]
  /\ trace twice = [] /\ world twice = world once.
Proof.
  split; [vm_compute; reflexivity|].
  destruct (C5_second_Close_spares_the_file Sample.machine sink
              (sink_Handler Sample.outside) Sample.outside sample_ms
              Sample.m0) as (_ & _ & _ & _ & Hnone & _).
  apply Hnone. intros h _. reflexivity.
Defined.

(** C8 on a heap that holds [sample_mh]. *)
Lemma C8_witness :
  deref [sample_mh] 0 = Some sample_mh
  /\ exists mh' heap',
       @WithAttrs_at _ _ (sink_Handler Sample.outside) [sample_mh] 0
         [sample_attr] = Some (mh', heap')
       /\ deref heap' 0 = Some sample_mh
       /\ deref heap' mh'
          = Some (@multihandler_WithAttrs _ _ (sink_Handler Sample.outside)
                    sample_mh [sample_attr]).
Proof.
  split; [reflexivity|].
  destruct (C8_deriving_makes_a_new_dispatcher Sample.machine sink
              (sink_Handler Sample.outside) [sample_mh] 0 sample_mh
              [sample_attr] "request" eq_refl)
    as [(mh' & heap' & Hwith & _ & Hnew & Hframe & _) _].
  exists mh', heap'. split; [exact Hwith|]. split; [|exact Hnew].
  apply Hframe. reflexivity.
Defined.

(** C9 for "test.log" opened readable and in append mode. *)
Lemma C9_witness :
  exists logPath flags perm,
    filter is_open
      (trace (openLogFile Sample.outside "test.log" true false Sample.m0))
    = [EvOpenFile logPath flags perm]
    /\ flags = 1090%Z /\ perm = 420%Z.
Proof.
  destruct (C9_open_flags_and_permission Sample.machine Sample.outside
              "test.log" true false Sample.m0 sample_file eq_refl)
    as (logPath & flags & perm & Htrace & _ & _ & _ & _ & _ & Hflags & Hperm).
  exists logPath, flags, perm. split; [exact Htrace|].
  split; [rewrite Hflags; reflexivity | exact Hperm].
Defined.

(* ================================================================= *)
(** * Further properties of the package *)

(* ================================================================= *)
(** ** The aggregate check of the dispatcher *)

Section EnabledFacts.
Context {W H : Type} {I : Handler.Handler W H}.

Lemma Enabled_loop_true (hs : list H) (level : slog.Level) :
  Enabled_loop hs level = true
  <-> exists h, In h hs /\ Handler.Enabled h level = true.
Proof.
  induction hs as [|h rest IH]; simpl.
  - split; [discriminate | intros (h & [] & _)].
  - destruct (Handler.Enabled h level) eqn:Hh.
    + split; [|reflexivity]. intros _. exists h. now split; [left|].
    + rewrite IH. split.
      * intros (h' & Hin & Hen). exists h'. now split; [right|].
      * intros (h' & [-> | Hin] & Hen); [congruence|]. now exists h'.
Qed.

Lemma Enabled_loop_false (hs : list H) (level : slog.Level) :
  Enabled_loop hs level = false
  <-> forall h, In h hs -> Handler.Enabled h level = false.
Proof.
  split.
  - intros Hoff h Hin. destruct (Handler.Enabled h level) eqn:Hh; [|reflexivity].
    assert (Hon : Enabled_loop hs level = true)
      by (apply Enabled_loop_true; now exists h).
    congruence.
  - intros Hall. destruct (Enabled_loop hs level) eqn:Hon; [|reflexivity].
    apply Enabled_loop_true in Hon as (h & Hin & Hen).
    rewrite (Hall h Hin) in Hen. discriminate.
Qed.

Lemma Handle_loop_all_disabled (hs : list H) (r : slog.Record_) :
  (forall h, In h hs -> Handler.Enabled h (slog.Level_ r) = false) ->
  forall i w, Handle_loop i hs r w = (tt, w, []).
Proof.
  induction hs as [|h rest IH]; intros Hoff i w; [reflexivity|].
  simpl. rewrite (Hoff h (or_introl eq_refl)), run_bind.
  rewrite IH; [reflexivity|]. intros h' Hin. apply Hoff. now right.
Qed.

Lemma Handle_loop_world (hs : list H) (r : slog.Record_) :
  forall i w,
    world (Handle_loop i hs r w)
    = fold_left (fun w' h => snd (Handler.Handle h r w'))
        (filter (fun h => Handler.Enabled h (slog.Level_ r)) hs) w.
Proof.
  induction hs as [|h rest IH]; intros i w; [reflexivity|].
  simpl. rewrite world_bind, IH.
  destruct (Handler.Enabled h (slog.Level_ r)); simpl.
  - now rewrite world_bind, world_call.
  - reflexivity.
Qed.

End EnabledFacts.

(** X1.  The dispatcher reports a level enabled exactly when one of its
    sinks does, and disabled exactly when all of them do; a dispatcher
    without sinks enables nothing. *)
Theorem X1_dispatcher_enabled_iff_some_sink_is :
  forall (W H : Type) (I : Handler.Handler W H)
         (mh : multihandler H) (level : slog.Level),
    (multihandler_Enabled mh level = true
     <-> exists h, In h (handlers mh) /\ Handler.Enabled h level = true)
    /\ (multihandler_Enabled mh level = false
        <-> forall h, In h (handlers mh) -> Handler.Enabled h level = false)
    /\ (handlers mh = [] -> multihandler_Enabled mh level = false).
Proof.
  intros W H I mh level. unfold multihandler_Enabled.
  split; [apply Enabled_loop_true|]. split; [apply Enabled_loop_false|].
  now intros ->.
Qed.

(** X2.  The aggregate check and the dispatch agree: handling a record
    invokes no sink exactly when the dispatcher reports the level of
    the record disabled, and then it returns nil and leaves the world
    as it is. *)
Theorem X2_disabled_level_is_dropped :
  forall (W H : Type) (I : Handler.Handler W H)
         (mh : multihandler H) (r : slog.Record_) (w : W),
    (trace (multihandler_Handle mh r w) = []
     <-> multihandler_Enabled mh (slog.Level_ r) = false)
    /\ (multihandler_Enabled mh (slog.Level_ r) = false ->
        multihandler_Handle mh r w = (None, w, [])).
Proof.
  intros W H I mh r w. split.
  - rewrite Handle_trace. unfold multihandler_Enabled.
    rewrite Enabled_loop_false. split.
    + intros Hnil h Hin.
      destruct (Handler.Enabled h (slog.Level_ r)) eqn:Hen; [|reflexivity].
      apply In_nth_error in Hin as (i & Hi).
      assert (Hev : In (EvHandle i (localized (tz mh) r))
                      (map (fun ih => EvHandle (fst ih) (localized (tz mh) r))
                         (filter (fun ih => Handler.Enabled (snd ih)
                                              (slog.Level_ r))
                            (indexed (handlers mh))))).
      { apply in_map_iff. exists (i, h). split; [reflexivity|].
        apply filter_In. split; [now apply In_indexed | exact Hen]. }
      rewrite Hnil in Hev. destruct Hev.
    + intros Hoff.
      assert (Hf : filter (fun ih => Handler.Enabled (snd ih) (slog.Level_ r))
                     (indexed (handlers mh)) = []).
      { destruct (filter _ _) as [|[i h] l] eqn:Hfl; [reflexivity|].
        assert (Hin : In (i, h) ((i, h) :: l)) by now left.
        rewrite <- Hfl in Hin. apply filter_In in Hin as [Hin Hen].
        apply In_indexed, nth_error_In in Hin. simpl in Hen.
        rewrite (Hoff h Hin) in Hen. discriminate. }
      now rewrite Hf.
  - intros Hoff. unfold multihandler_Enabled in Hoff.
    rewrite Enabled_loop_false in Hoff.
    unfold multihandler_Handle. rewrite run_bind.
    rewrite Handle_loop_all_disabled; [reflexivity|].
    intros h Hin. destruct (tz mh); apply Hoff, Hin.
Qed.

(** X3.  The world after a dispatch is the world after the [Handle]
    methods of exactly the enabled sinks, run in the order of the slice
    on the localized record, each on the world the one before left. *)
Theorem X3_dispatch_runs_the_enabled_sinks_in_order :
  forall (W H : Type) (I : Handler.Handler W H)
         (mh : multihandler H) (r : slog.Record_) (w : W),
    world (multihandler_Handle mh r w)
    = fold_left
        (fun w' h => snd (Handler.Handle h (localized (tz mh) r) w'))
        (filter (fun h => Handler.Enabled h (slog.Level_ r)) (handlers mh))
        w.
Proof.
  intros W H I mh r w. unfold multihandler_Handle.
  rewrite world_bind, Handle_loop_world.
  destruct (tz mh); reflexivity.
Qed.

(* ================================================================= *)
(** ** Derived dispatchers *)

Section DerivedDispatch.
Context {W H : Type} {I : Handler.Handler W H}.

(** A derivation of sinks that keeps their answer to [Enabled]. *)
Definition keeps_Enabled (d : H -> H) (hs : list H) : Prop :=
  forall h level,
    In h hs -> Handler.Enabled (d h) level = Handler.Enabled h level.

Lemma Enabled_loop_map (d : H -> H) (hs : list H) (level : slog.Level) :
  keeps_Enabled d hs ->
  Enabled_loop (map d hs) level = Enabled_loop hs level.
Proof.
  induction hs as [|h rest IH]; intros Hk; [reflexivity|].
  simpl. rewrite (Hk h level (or_introl eq_refl)), IH; [reflexivity|].
  intros h' l Hin. apply Hk. now right.
Qed.

Lemma Handle_loop_trace_map (d : H -> H) (hs : list H) (r : slog.Record_) :
  keeps_Enabled d hs ->
  forall i w w',
    trace (Handle_loop i (map d hs) r w) = trace (Handle_loop i hs r w').
Proof.
  induction hs as [|h rest IH]; intros Hk i w w'; [reflexivity|].
  simpl. rewrite !trace_bind.
  rewrite (Hk h (slog.Level_ r) (or_introl eq_refl)).
  assert (Hrest : keeps_Enabled d rest)
    by (intros h' l Hin; apply Hk; now right).
  f_equal; [|now apply IH].
  destruct (Handler.Enabled h (slog.Level_ r)); [|reflexivity].
  now rewrite !trace_bind, !trace_call.
Qed.

End DerivedDispatch.

(** X4.  When deriving keeps the answer of each sink to [Enabled], as
    it does for the console, file and email sinks, the derived
    dispatcher enables the same levels as the original and invokes,
    for every record, the sinks at the same positions with the same
    localized record. *)
Theorem X4_derived_dispatcher_invokes_the_same_positions :
  forall (W H : Type) (I : Handler.Handler W H) (mh : multihandler H)
         (attrs : list slog.Attr) (name : string),
    (keeps_Enabled (fun h => Handler.WithAttrs h attrs) (handlers mh) ->
     forall r w w',
       multihandler_Enabled (multihandler_WithAttrs mh attrs) (slog.Level_ r)
       = multihandler_Enabled mh (slog.Level_ r)
       /\ trace (multihandler_Handle (multihandler_WithAttrs mh attrs) r w)
          = trace (multihandler_Handle mh r w'))
    /\ (keeps_Enabled (fun h => Handler.WithGroup h name) (handlers mh) ->
        forall r w w',
          multihandler_Enabled (multihandler_WithGroup mh name) (slog.Level_ r)
          = multihandler_Enabled mh (slog.Level_ r)
          /\ trace (multihandler_Handle (multihandler_WithGroup mh name) r w)
             = trace (multihandler_Handle mh r w'))
    /\ (forall (O : Outside W) (hs : list sink),
          @keeps_Enabled W sink (sink_Handler O)
            (fun h => @Handler.WithAttrs W sink (sink_Handler O) h attrs) hs
          /\ @keeps_Enabled W sink (sink_Handler O)
               (fun h => @Handler.WithGroup W sink (sink_Handler O) h name)
               hs).
Proof.
  intros W H I mh attrs name. split; [|split].
  - intros Hk r w w'. split.
    + now apply Enabled_loop_map.
    + unfold multihandler_Handle, multihandler_WithAttrs. cbn [tz handlers].
      rewrite !trace_bind. f_equal. now apply Handle_loop_trace_map.
  - intros Hk r w w'. split.
    + now apply Enabled_loop_map.
    + unfold multihandler_Handle, multihandler_WithGroup. cbn [tz handlers].
      rewrite !trace_bind. f_equal. now apply Handle_loop_trace_map.
  - intros O hs. split; intros [c|c|eh] level _; reflexivity.
Qed.

(** X4 for [sample_mh] derived with an attribute. *)
Lemma X4_witness :
  trace (@multihandler_Handle _ _ (sink_Handler Sample.outside)
           (@multihandler_WithAttrs _ _ (sink_Handler Sample.outside)
              sample_mh [sample_attr]) sample_record Sample.m0)
  = trace (@multihandler_Handle _ _ (sink_Handler Sample.outside)
             sample_mh sample_record Sample.m0).
Proof.
  destruct (X4_derived_dispatcher_invokes_the_same_positions Sample.machine
              sink (sink_Handler Sample.outside) sample_mh [sample_attr]
              "request") as (Hattrs & _ & Hsinks).
  apply Hattrs. apply (Hsinks Sample.outside).
Defined.

(** X2 for a record below the thresholds of all sinks of [sample_mh]. *)
Lemma X2_witness :
  let r := {| slog.Time_ := slog.Time_ sample_record;
              slog.Message := "trace";
              slog.Level_ := (-8)%Z;
              slog.Attrs := [] |} in
  @multihandler_Handle _ _ (sink_Handler Sample.outside) sample_mh r Sample.m0
  = (None, Sample.m0, []).
Proof.
  apply (X2_disabled_level_is_dropped Sample.machine sink
           (sink_Handler Sample.outside)).
  reflexivity.
Defined.

(* ================================================================= *)
(** ** Sending mail *)

Section MailFacts.
Context {W : Type} (O : Outside W).

(** The message [smtpClient.Send] hands to [smtp.SendMail]. *)
Definition mail_text (recipient subject body : string) : string :=
  "To: " +++ recipient +++ CRLF +++ "Subject: " +++ subject
  +++ CRLF +++ CRLF +++ body.

Lemma Send_eq (sc : smtpClient) (subject body recipient : string) (w : W) :
  let sent :=
    smtp_SendMail O (Host sc +++ ":" +++ Port sc)
      {| auth_identity := ""; auth_username := Username sc;
         auth_password := Password sc; auth_host := Host sc |}
      (Sender sc) [recipient] (mail_text recipient subject body) w in
  smtpClient_Send O sc subject body recipient w
  = (match fst sent with
     | Some e =>
         Some (Errorf "SMTP Client couldn't send mail. Error: %w" [OpError e])
     | None => None
     end,
     snd sent,
     [EvSendMail (Host sc +++ ":" +++ Port sc) (Sender sc) [recipient]
        (mail_text recipient subject body)]).
Proof.
  cbv zeta. unfold smtpClient_Send, bind, call, mail_text.
  destruct (smtp_SendMail O _ _ _ _ _ w) as [[e|] w']; reflexivity.
Qed.

Lemma emailHandler_guard (eh : emailHandler) (r : slog.Record_) :
  (slog.Level_ r <? Level eh)%Z = negb (emailHandler_Enabled eh (slog.Level_ r)).
Proof.
  unfold emailHandler_Enabled.
  destruct (Z.ltb_spec (slog.Level_ r) (Level eh));
    destruct (Z.leb_spec (Level eh) (slog.Level_ r)); try reflexivity; lia.
Qed.

Lemma emailHandler_Handle_eq (eh : emailHandler) (r : slog.Record_) (w : W) :
  let sc := smtpClient_ eh in
  let sent :=
    smtp_SendMail O (Host sc +++ ":" +++ Port sc)
      {| auth_identity := ""; auth_username := Username sc;
         auth_password := Password sc; auth_host := Host sc |}
      (Sender sc) [Recipient sc]
      (mail_text (Recipient sc) "Log Alert" (email_body O r)) w in
  emailHandler_Handle O eh r w
  = if emailHandler_Enabled eh (slog.Level_ r) then
      (match fst sent with
       | Some e =>
           Some (Errorf "logger couldn't send emailr: %w"
                   [OpError
                      (Errorf "SMTP Client couldn't send mail. Error: %w"
                         [OpError e])])
       | None => None
       end,
       snd sent,
       [EvSendMail (Host sc +++ ":" +++ Port sc) (Sender sc) [Recipient sc]
          (mail_text (Recipient sc) "Log Alert" (email_body O r))])
    else (None, w, []).
Proof.
  cbv zeta. unfold emailHandler_Handle. rewrite emailHandler_guard.
  destruct (emailHandler_Enabled eh (slog.Level_ r)); [|reflexivity].
  cbn [negb]. rewrite run_bind, Send_eq. cbv zeta.
  cbn [value world trace fst snd].
  destruct (fst (smtp_SendMail O _ _ _ _ _ w)); reflexivity.
Qed.

End MailFacts.

(** X5.  The email sink sends mail exactly for the records its own
    [Enabled] accepts.  For a record below its threshold [Handle] does
    nothing and returns nil.  Otherwise it makes one call of
    [smtp.SendMail], to the address host:port of its client, from the
    sender to the one recipient, with the mail text built from the
    record; it returns nil exactly when that call does, and otherwise
    the error of the call wrapped twice. *)
Theorem X5_email_sink_sends_iff_enabled :
  forall (W : Type) (O : Outside W) (eh : emailHandler)
         (r : slog.Record_) (w : W),
    let sc := smtpClient_ eh in
    let text := mail_text (Recipient sc) "Log Alert" (email_body O r) in
    let sent :=
      smtp_SendMail O (Host sc +++ ":" +++ Port sc)
        {| auth_identity := ""; auth_username := Username sc;
           auth_password := Password sc; auth_host := Host sc |}
        (Sender sc) [Recipient sc] text w in
    let x := emailHandler_Handle O eh r w in
    (emailHandler_Enabled eh (slog.Level_ r) = false -> x = (None, w, []))
    /\ (emailHandler_Enabled eh (slog.Level_ r) = true ->
        trace x = [EvSendMail (Host sc +++ ":" +++ Port sc) (Sender sc)
                     [Recipient sc] text]
        /\ world x = snd sent
        /\ (value x = None <-> fst sent = None)
        /\ forall e,
             fst sent = Some e ->
             value x
             = Some (Errorf "logger couldn't send emailr: %w"
                       [OpError
                          (Errorf "SMTP Client couldn't send mail. Error: %w"
                             [OpError e])]))
    /\ (trace x = [] <-> emailHandler_Enabled eh (slog.Level_ r) = false).
Proof.
  intros W O eh r w sc text sent x. subst x.
  rewrite emailHandler_Handle_eq. cbv zeta. fold sc. fold text. fold sent.
  destruct (emailHandler_Enabled eh (slog.Level_ r)).
  - split; [discriminate|]. split.
    + intros _. cbn [value world trace fst snd].
      split; [reflexivity|]. split; [reflexivity|]. split.
      * destruct (fst sent); split; intros; congruence.
      * intros e ->. reflexivity.
    + cbn [trace snd]. split; discriminate.
  - split; [reflexivity|]. split; [discriminate|]. split; reflexivity.
Qed.

(** X5 for the email sink of [sample_mh] and an error record. *)
Lemma X5_witness :
  let eh := newEmailHandler
              (newSMTPClient "smtp.example.org" "465" "admin" "secret"
                 "from@example.org" "to@example.org") slog.LevelError in
  let r := {| slog.Time_ := slog.Time_ sample_record;
              slog.Message := "disk full";
              slog.Level_ := slog.LevelError;
              slog.Attrs := [] |} in
  emailHandler_Handle Sample.outside eh sample_record Sample.m0
  = (None, Sample.m0, [])
  /\ trace (emailHandler_Handle Sample.outside eh r Sample.m0)
     = [EvSendMail "smtp.example.org:465" "from@example.org"
          ["to@example.org"]
          (mail_text "to@example.org" "Log Alert"
             (email_body Sample.outside r))].
Proof.
  intros eh r. split.
  - apply (X5_email_sink_sends_iff_enabled Sample.machine Sample.outside eh
             sample_record Sample.m0). reflexivity.
  - apply (X5_email_sink_sends_iff_enabled Sample.machine Sample.outside eh
             r Sample.m0). reflexivity.
Defined.

(** X6.  [EnableEmail] registers, after the sinks already there, an
    email sink with the given threshold whose client holds the port
    where the host belongs and the host where the port belongs (the
    two are passed to [newSMTPClient] in that order), so the mail of
    that sink goes to the address port:host; the option reports no
    error and touches nothing else. *)
Theorem X6_EnableEmail_registers_a_sink_dialing_port_host :
  forall (W : Type) (O : Outside W) (level : slog.Level)
         (host port username password sender recipient : string)
         (ms : Multislog sink) (w : W),
    let eh := {| smtpClient_ :=
                   {| Host := port; Port := host; Username := username;
                      Password := password; Sender := sender;
                      Recipient := recipient |};
                 Level := level |} in
    @EnableEmail W level host port username password sender recipient ms w
    = ((None, set_handlers ms (ms_handlers ms ++ [EmailHandler eh])), w, [])
    /\ (forall l, emailHandler_Enabled eh l = (level <=? l)%Z)
    /\ forall (r : slog.Record_) (w' : W) addr from to msg,
         In (EvSendMail addr from to msg)
            (trace (emailHandler_Handle O eh r w')) ->
         addr = port +++ ":" +++ host /\ from = sender /\ to = [recipient].
Proof.
  intros W O level host port username password sender recipient ms w eh.
  split; [reflexivity|]. split; [reflexivity|].
  intros r w' addr from to msg Hin.
  rewrite emailHandler_Handle_eq in Hin. cbv zeta in Hin.
  destruct (emailHandler_Enabled eh (slog.Level_ r)); [|destruct Hin].
  cbn [trace snd In] in Hin. destruct Hin as [Hev | []].
  inversion Hev; subst. now repeat split.
Qed.

(** X6 on the sample machine: the sink registered for host
    smtp.example.org and port 465 dials 465:smtp.example.org. *)
Lemma X6_witness :
  In (EvSendMail "465:smtp.example.org" "from@example.org"
        ["to@example.org"]
        (mail_text "to@example.org" "Log Alert"
           (email_body Sample.outside
              (slog.set_Time sample_record (slog.Time_ sample_record)))))
     (trace (emailHandler_Handle Sample.outside
               {| smtpClient_ :=
                    {| Host := "465"; Port := "smtp.example.org";
                       Username := "admin"; Password := "secret";
                       Sender := "from@example.org";
                       Recipient := "to@example.org" |};
                  Level := slog.LevelWarn |}
               sample_record Sample.m0))
  /\ "465:smtp.example.org" = "465" +++ ":" +++ "smtp.example.org"
  /\ "from@example.org" = "from@example.org"
  /\ ["to@example.org"] = ["to@example.org"].
Proof.
  assert (Hin : In (EvSendMail "465:smtp.example.org" "from@example.org"
                      ["to@example.org"]
                      (mail_text "to@example.org" "Log Alert"
                         (email_body Sample.outside
                            (slog.set_Time sample_record
                               (slog.Time_ sample_record)))))
                   (trace (emailHandler_Handle Sample.outside
                             {| smtpClient_ :=
                                  {| Host := "465";
                                     Port := "smtp.example.org";
                                     Username := "admin";
                                     Password := "secret";
                                     Sender := "from@example.org";
                                     Recipient := "to@example.org" |};
                                Level := slog.LevelWarn |}
                             sample_record Sample.m0)))
    by (left; reflexivity).
  split; [exact Hin|].
  destruct (X6_EnableEmail_registers_a_sink_dialing_port_host Sample.machine
              Sample.outside slog.LevelWarn "smtp.example.org" "465" "admin"
              "secret" "from@example.org" "to@example.org" sample_ms
              Sample.m0) as (_ & _ & Hdial).
  exact (Hdial sample_record Sample.m0 _ _ _ _ Hin).
Defined.

(* ================================================================= *)
(** ** The constructor *)

Section NewFacts.
Context {W : Type} (O : Outside W).

Lemma New_eq (opts : list Option) (w : W) :
  let ms0 := {| Logger := None; logFile := None; timezone := Some UTC;
                ms_handlers := [] |} in
  let x := @New_loop W opts ms0 w in
  New opts w
  = (match value x with
     | Panicked e => Panicked e
     | Returned ms =>
         Returned (set_Logger ms
                     (Some {| handlers := ms_handlers ms;
                              tz := timezone ms |}))
     end, world x, trace x).
Proof.
  cbv zeta. unfold New. rewrite run_bind.
  unfold set_timezone. cbn [Logger logFile ms_handlers].
  destruct (value (New_loop opts _ w)); cbn [value world trace fst snd ret];
    now rewrite app_nil_r.
Qed.

Lemma New_loop_panics_wrap (opts : list Option) :
  forall ms (w : W) e,
    value (New_loop opts ms w) = Panicked e ->
    exists err,
      e = Errorf "%w: %w" [OpError errInvalidOption; OpError err].
Proof.
  induction opts as [|opt rest IH]; intros ms w e Hp.
  - discriminate Hp.
  - rewrite New_loop_cons, value_bind in Hp.
    destruct (fst (value (opt ms w))) as [err|].
    + exists err. unfold ret, value in Hp. cbn [fst] in Hp. congruence.
    + now apply IH in Hp.
Qed.

(** An option that reports an error whatever it is given. *)
Definition never_succeeds (opt : Option) : Prop :=
  forall ms (w : W), fst (value (opt ms w)) <> None.

Lemma New_loop_never_succeeds (opt : Option) (rest : list Option) :
  never_succeeds opt ->
  forall pre ms w,
    exists e, value (New_loop (pre ++ opt :: rest) ms w) = Panicked e.
Proof.
  intros Hnever. induction pre as [|a pre IH]; intros ms w.
  - cbn [app]. rewrite New_loop_cons, value_bind.
    specialize (Hnever ms w).
    destruct (fst (value (opt ms w))) as [err|]; [|contradiction].
    eexists. reflexivity.
  - cbn [app]. rewrite New_loop_cons, value_bind.
    destruct (fst (value (a ms w))) as [err|]; [eexists; reflexivity|].
    apply IH.
Qed.

Lemma EnableLogFile_invalid_never_succeeds (level : slog.Level)
  (name : string) (allowRead clearOnRestart : bool) :
  invalid_name name = true ->
  never_succeeds (EnableLogFile O level name allowRead clearOnRestart).
Proof.
  intros Hinv ms w. unfold EnableLogFile. rewrite value_bind.
  pose proof (rejects_invalid_name O w name Hinv allowRead clearOnRestart)
    as Hrej.
  destruct (value (openLogFile O name allowRead clearOnRestart w));
    [discriminate Hrej | discriminate].
Qed.

Lemma EnableTimezone_unknown_never_succeeds (name : string) :
  (forall w, is_ok (time_LoadLocation O name w) = false) ->
  never_succeeds (EnableTimezone O name).
Proof.
  intros Hunknown ms w. unfold EnableTimezone. rewrite value_bind.
  unfold ask, value at 2. cbn [fst]. specialize (Hunknown w).
  destruct (time_LoadLocation O name w); [discriminate Hunknown|discriminate].
Qed.

(** An option that only appends the sink [s]. *)
Definition registers (opt : Option) (s : sink) : Prop :=
  forall ms (w : W),
    opt ms w = ((None, set_handlers ms (ms_handlers ms ++ [s])), w, []).

Lemma New_loop_registers (opts : list Option) (sinks : list sink) :
  Forall2 registers opts sinks ->
  forall ms w,
    New_loop opts ms w
    = (Returned (set_handlers ms (ms_handlers ms ++ sinks)), w, []).
Proof.
  induction 1 as [|opt s opts sinks Hopt _ IH]; intros ms w.
  - destruct ms. unfold set_handlers. cbn. now rewrite app_nil_r.
  - rewrite New_loop_cons, run_bind, (Hopt ms w).
    cbn [value world trace fst snd]. rewrite IH.
    unfold set_handlers. cbn. now rewrite <- app_assoc.
Qed.

Lemma New_loop_app_returned (pre post : list Option) :
  forall ms (w : W) ms',
    value (New_loop (pre ++ post) ms w) = Returned ms' ->
    exists ms1 w1, value (New_loop post ms1 w1) = Returned ms'.
Proof.
  induction pre as [|a pre IH]; intros ms w ms' Hret.
  - now exists ms, w.
  - cbn [app] in Hret. rewrite New_loop_cons, value_bind in Hret.
    destruct (fst (value (a ms w))); [discriminate Hret|].
    now apply IH in Hret.
Qed.

(** An option that keeps the file handle and the sinks already
    registered. *)
Definition keeps_file (opt : Option) : Prop :=
  forall ms (w : W),
    logFile (snd (value (opt ms w))) = logFile ms
    /\ exists more,
         ms_handlers (snd (value (opt ms w))) = ms_handlers ms ++ more.

Lemma EnableConsole_keeps_file (level : slog.Level) :
  keeps_file (@EnableConsole W level).
Proof. intros ms w. split; [reflexivity|]. eexists. reflexivity. Qed.

Lemma EnableEmail_keeps_file (level : slog.Level)
  (host port username password sender recipient : string) :
  keeps_file
    (@EnableEmail W level host port username password sender recipient).
Proof. intros ms w. split; [reflexivity|]. eexists. reflexivity. Qed.

Lemma EnableTimezone_keeps_file (name : string) :
  keeps_file (EnableTimezone O name).
Proof.
  intros ms w. unfold EnableTimezone. rewrite value_bind.
  destruct (value (ask (EvLoadLocation name) (time_LoadLocation O name) w));
    (split; [reflexivity|]); exists []; cbn; now rewrite app_nil_r.
Qed.

Lemma New_loop_keeps_file (opts : list Option) :
  Forall keeps_file opts ->
  forall ms w ms',
    value (New_loop opts ms w) = Returned ms' ->
    logFile ms' = logFile ms
    /\ exists more, ms_handlers ms' = ms_handlers ms ++ more.
Proof.
  induction 1 as [|opt rest Hopt _ IH]; intros ms w ms' Hret.
  - unfold New_loop, ret, value in Hret. cbn [fst] in Hret.
    inversion Hret; subst. split; [reflexivity|].
    exists []. now rewrite app_nil_r.
  - rewrite New_loop_cons, value_bind in Hret.
    destruct (Hopt ms w) as (Hfile & more1 & Hmore1).
    destruct (fst (value (opt ms w))); [discriminate Hret|].
    apply IH in Hret as (Hfile' & more2 & Hmore2).
    split; [congruence|]. exists (more1 ++ more2).
    now rewrite Hmore2, Hmore1, app_assoc.
Qed.

Lemma EnableLogFile_returned (level : slog.Level) (name : string)
  (allowRead clearOnRestart : bool) (ms : Multislog sink) (w : W) :
  fst (value (EnableLogFile O level name allowRead clearOnRestart ms w))
  = None ->
  exists f,
    value (openLogFile O name allowRead clearOnRestart w) = OK f
    /\ snd (value (EnableLogFile O level name allowRead clearOnRestart ms w))
       = set_handlers (set_logFile ms (Some f))
           (ms_handlers ms ++ [NewJSONHandler (ToFile f) level])
    /\ world (EnableLogFile O level name allowRead clearOnRestart ms w)
       = world (openLogFile O name allowRead clearOnRestart w).
Proof.
  unfold EnableLogFile. rewrite value_bind, world_bind.
  destruct (value (openLogFile O name allowRead clearOnRestart w)) as [f|e];
    [|discriminate].
  intros _. exists f. now repeat split.
Qed.

Lemma closers_of_sinks (hs : list sink) :
  forall i, @closers W sink (sink_Handler O) i hs = [].
Proof. induction hs as [|h rest IH]; intros i; [reflexivity | apply IH]. Qed.

Lemma Close_of_sinks (ms : Multislog sink) (w : W) :
  closes (trace (@Multislog_Close W sink (sink_Handler O) O ms w))
  = match logFile ms with Some f => [EvFileClose f] | None => [] end.
Proof. now rewrite Close_closes, closers_of_sinks. Qed.

End NewFacts.

Section NewStops.
Context {W : Type}.

Lemma New_loop_stops (opt : @Option W) (rest rest' : list Option) :
  never_succeeds opt ->
  forall pre ms w,
    New_loop (pre ++ opt :: rest) ms w = New_loop (pre ++ opt :: rest') ms w.
Proof.
  intros Hnever. induction pre as [|a pre IH]; intros ms w; cbn [app];
    rewrite !New_loop_cons, !run_bind.
  - specialize (Hnever ms w).
    destruct (fst (value (opt ms w))); [reflexivity | contradiction].
  - destruct (fst (value (a ms w))); [reflexivity|]. now rewrite IH.
Qed.

End NewStops.

Section NewPanics.
Context {W : Type}.

(** A panic of the loop over the options comes from the first option
    that reports an error, run on what the options before it left. *)
Lemma New_loop_panic_origin (opts : list (@Option W)) :
  forall ms w e,
    value (New_loop opts ms w) = Panicked e ->
    exists pre opt rest ms1 err,
      opts = pre ++ opt :: rest
      /\ value (New_loop pre ms w) = Returned ms1
      /\ fst (value (opt ms1 (world (New_loop pre ms w)))) = Some err
      /\ e = Errorf "%w: %w" [OpError errInvalidOption; OpError err].
Proof.
  induction opts as [|a opts IH]; intros ms w e Hp; [discriminate Hp|].
  rewrite New_loop_cons, value_bind in Hp.
  destruct (fst (value (a ms w))) as [err|] eqn:Hfst.
  - exists [], a, opts, ms, err. split; [reflexivity|].
    split; [reflexivity|]. split; [exact Hfst|].
    unfold ret, value in Hp. cbn [fst] in Hp. congruence.
  - apply IH in Hp as (pre & opt & rest & ms1 & err & -> & Hpre & Hopt & ->).
    exists (a :: pre), opt, rest, ms1, err. split; [reflexivity|].
    rewrite New_loop_cons, value_bind, world_bind, Hfst.
    now repeat split.
Qed.

End NewPanics.

(** X7.  When [New] panics, some option failed: the options before it
    all succeeded, it is the first to report an error, on the struct
    and the world that the options before it left, and the panic value
    wraps [errInvalidOption] together with exactly the error that this
    option returned. *)
Theorem X7_New_panics_with_errInvalidOption :
  forall (W : Type) (opts : list (@Option W)) (w : W) (e : error),
    value (New opts w) = Panicked e ->
    let ms0 := {| Logger := None; logFile := None; timezone := Some UTC;
                  ms_handlers := [] |} in
    exists pre opt rest ms1 err,
      opts = pre ++ opt :: rest
      /\ value (New_loop pre ms0 w) = Returned ms1
      /\ fst (value (opt ms1 (world (New_loop pre ms0 w)))) = Some err
      /\ e = Errorf "%w: %w" [OpError errInvalidOption; OpError err].
Proof.
  intros W opts w e Hp ms0. rewrite New_eq in Hp. cbv zeta in Hp.
  cbn [value fst] in Hp.
  destruct (value (New_loop opts _ w)) as [ms|e'] eqn:Hloop;
    [discriminate Hp|].
  inversion Hp; subst e'. now apply New_loop_panic_origin in Hloop.
Qed.

(** X7 for the constructor call of TestEnableTimezone_Invalid after a
    console option. *)
Lemma X7_witness :
  let opts := [ @EnableConsole Sample.machine slog.LevelInfo;
                EnableTimezone Sample.outside "Not/A_Timezone" ] in
  let ms0 := {| Logger := None; logFile := None; timezone := Some UTC;
                ms_handlers := [] |} in
  value (New opts Sample.m0)
  = Panicked
      (Errorf "%w: %w"
         [OpError errInvalidOption;
          OpError (Errorf "failed to fallback to UTC time zone: %w"
                     [OpError (Foreign "unknown time zone")])])
  /\ exists pre opt rest ms1 err,
       opts = pre ++ opt :: rest
       /\ value (New_loop pre ms0 Sample.m0) = Returned ms1
       /\ fst (value (opt ms1 (world (New_loop pre ms0 Sample.m0))))
          = Some err
       /\ Errorf "%w: %w"
            [OpError errInvalidOption;
             OpError (Errorf "failed to fallback to UTC time zone: %w"
                        [OpError (Foreign "unknown time zone")])]
          = Errorf "%w: %w" [OpError errInvalidOption; OpError err].
Proof.
  intros opts ms0. split; [reflexivity|].
  apply (X7_New_panics_with_errInvalidOption Sample.machine opts Sample.m0).
  reflexivity.
Defined.

(** X8.  An option that cannot succeed makes [New] panic wherever it
    stands among the options, and the options after it are not run:
    they have no influence on the outcome, the world or the calls made.
    [EnableLogFile] with an empty name or a name that contains a
    separator is such an option, and so is [EnableTimezone] with a name
    that [time.LoadLocation] does not know. *)
Theorem X8_failing_option_makes_New_panic :
  forall (W : Type) (O : Outside W),
    (forall (opt : @Option W) (pre rest rest' : list Option) (w : W),
        never_succeeds opt ->
        (exists e, value (New (pre ++ opt :: rest) w) = Panicked e)
        /\ New (pre ++ opt :: rest) w = New (pre ++ opt :: rest') w)
    /\ (forall level name allowRead clearOnRestart,
          name = "" \/ strings.ContainsByte name filepath.Separator = true ->
          never_succeeds (EnableLogFile O level name allowRead clearOnRestart))
    /\ (forall name,
          (forall w, is_ok (time_LoadLocation O name w) = false) ->
          never_succeeds (EnableTimezone O name)).
Proof.
  intros W O. split; [|split].
  - intros opt pre rest rest' w Hnever. split.
    + unfold New. rewrite value_bind.
      destruct (New_loop_never_succeeds opt rest Hnever pre
                  (set_timezone {| Logger := None; logFile := None;
                                   timezone := None; ms_handlers := [] |}
                     (Some UTC)) w) as (e & He).
      rewrite He. now exists e.
    + unfold New. rewrite !run_bind.
      now rewrite (New_loop_stops opt rest rest' Hnever).
  - intros level name allowRead clearOnRestart Hname.
    apply EnableLogFile_invalid_never_succeeds.
    destruct (invalid_name name) eqn:Hinv; [reflexivity|].
    apply invalid_name_false in Hinv as [Hne Hsep].
    destruct Hname as [-> | Hs]; [contradiction | congruence].
  - intros name. apply EnableTimezone_unknown_never_succeeds.
Qed.

(** X8 for a console option followed by a log file with a nested name
    and an email option that is never reached. *)
Lemma X8_witness :
  (exists e,
      value (New [ @EnableConsole Sample.machine slog.LevelDebug;
                   EnableLogFile Sample.outside slog.LevelInfo
                     "subdir/file.log" false true;
                   @EnableEmail Sample.machine slog.LevelWarn "h" "p" "u"
                     "pw" "s" "r" ] Sample.m0) = Panicked e)
  /\ never_succeeds (EnableTimezone Sample.outside "Not/A_Timezone").
Proof.
  destruct (X8_failing_option_makes_New_panic Sample.machine Sample.outside)
    as (Hpanic & Hfile & Hzone).
  split.
  - apply (Hpanic _ [ @EnableConsole Sample.machine slog.LevelDebug ]
             [ @EnableEmail Sample.machine slog.LevelWarn "h" "p" "u" "pw"
                 "s" "r" ] [] Sample.m0).
    apply Hfile. right. reflexivity.
  - apply Hzone. intros w. reflexivity.
Defined.

(** X9.  With options that only register sinks, as [EnableConsole] and
    [EnableEmail] do, [New] always returns: its sinks are the sinks of
    the options in the order of the options, its dispatcher is over
    these sinks with the zone UTC, it owns no file, and nothing outside
    the process is called or changed. *)
Theorem X9_New_registers_sinks_in_option_order :
  forall (W : Type) (opts : list (@Option W)) (sinks : list sink) (w : W),
    Forall2 registers opts sinks ->
    New opts w
    = (Returned {| Logger := Some {| tz := Some UTC; handlers := sinks |};
                   logFile := None;
                   timezone := Some UTC;
                   ms_handlers := sinks |}, w, [])
    /\ (forall level,
          registers (@EnableConsole W level) (NewTextHandler Stderr level))
    /\ (forall level host port username password sender recipient,
          registers
            (@EnableEmail W level host port username password sender recipient)
            (EmailHandler
               (newEmailHandler
                  (newSMTPClient port host username password sender recipient)
                  level))).
Proof.
  intros W opts sinks w Hreg. split; [|split].
  - unfold New. rewrite run_bind, (New_loop_registers opts sinks Hreg).
    reflexivity.
  - intros level ms w'. reflexivity.
  - intros level host port username password sender recipient ms w'.
    reflexivity.
Qed.

(** X9 for a console and an email option. *)
Lemma X9_witness :
  value (New [ @EnableConsole Sample.machine slog.LevelDebug;
               @EnableEmail Sample.machine slog.LevelError
                 "smtp.example.org" "465" "admin" "secret"
                 "from@example.org" "to@example.org" ] Sample.m0)
  = Returned
      {| Logger :=
           Some {| tz := Some UTC;
                   handlers :=
                     [ NewTextHandler Stderr slog.LevelDebug;
                       EmailHandler
                         (newEmailHandler
                            (newSMTPClient "465" "smtp.example.org" "admin"
                               "secret" "from@example.org" "to@example.org")
                            slog.LevelError) ] |};
         logFile := None;
         timezone := Some UTC;
         ms_handlers :=
           [ NewTextHandler Stderr slog.LevelDebug;
             EmailHandler
               (newEmailHandler
                  (newSMTPClient "465" "smtp.example.org" "admin" "secret"
                     "from@example.org" "to@example.org")
                  slog.LevelError) ] |}.
Proof.
  destruct (X9_New_registers_sinks_in_option_order Sample.machine
              [ @EnableConsole Sample.machine slog.LevelDebug;
                @EnableEmail Sample.machine slog.LevelError
                  "smtp.example.org" "465" "admin" "secret"
                  "from@example.org" "to@example.org" ]
              [ NewTextHandler Stderr slog.LevelDebug;
                EmailHandler
                  (newEmailHandler
                     (newSMTPClient "465" "smtp.example.org" "admin" "secret"
                        "from@example.org" "to@example.org")
                     slog.LevelError) ]
              Sample.m0) as (Hnew & _).
  - constructor; [intros ms w; reflexivity|].
    constructor; [intros ms w; reflexivity | constructor].
  - now rewrite Hnew.
Defined.

Section NewReturned.
Context {W : Type}.

Lemma New_returned (opts : list (@Option W)) (w : W) (ms : Multislog sink) :
  value (New opts w) = Returned ms ->
  exists ms0,
    value (New_loop opts
             {| Logger := None; logFile := None; timezone := Some UTC;
                ms_handlers := [] |} w) = Returned ms0
    /\ ms = set_Logger ms0
              (Some {| handlers := ms_handlers ms0; tz := timezone ms0 |}).
Proof.
  rewrite New_eq. cbv zeta. cbn [value fst].
  destruct (value (New_loop opts _ w)) as [ms0|e]; [|discriminate].
  intros Hret. exists ms0. split; [reflexivity | congruence].
Qed.

End NewReturned.

(** X10.  The zone of the dispatcher is the one loaded for the last
    [EnableTimezone] among the options: whatever options come before
    it, when the options after it leave the zone alone and [New]
    returns, the dispatcher has the location that [time.LoadLocation]
    returned for that name. *)
Theorem X10_last_EnableTimezone_wins :
  forall (W : Type) (O : Outside W) (pre rest : list (@Option W))
         (name : string) (w : W) (ms : Multislog sink),
    Forall keeps_timezone rest ->
    value (New (pre ++ EnableTimezone O name :: rest) w) = Returned ms ->
    exists w1 l,
      time_LoadLocation O name w1 = OK l
      /\ Logger ms = Some {| tz := Some l; handlers := ms_handlers ms |}
      /\ timezone ms = Some l.
Proof.
  intros W O pre rest name w ms Hrest Hret.
  apply New_returned in Hret as (ms0 & Hloop & ->).
  apply New_loop_app_returned in Hloop as (ms1 & w1 & Hloop).
  rewrite New_loop_cons, value_bind in Hloop.
  destruct (time_LoadLocation O name w1) as [l|e] eqn:Hload.
  - rewrite (EnableTimezone_loaded O _ _ _ _ Hload) in Hloop.
    cbn [value world fst snd] in Hloop.
    apply (New_loop_timezone _ Hrest) in Hloop. cbn in Hloop.
    exists w1, l. split; [exact Hload|].
    cbn [Logger timezone ms_handlers set_Logger]. now rewrite Hloop.
  - exfalso. unfold EnableTimezone, bind, ask in Hloop. rewrite Hload in Hloop.
    discriminate Hloop.
Qed.

(** X10 for two zones given one after the other. *)
Lemma X10_witness :
  exists w1 l,
    time_LoadLocation Sample.outside "Asia/Hong_Kong" w1 = OK l
    /\ Some {| tz := Some "Asia/Hong_Kong";
               handlers := [NewTextHandler Stderr slog.LevelInfo] |}
       = Some {| tz := Some l;
                 handlers := [NewTextHandler Stderr slog.LevelInfo] |}
    /\ Some "Asia/Hong_Kong" = Some l.
Proof.
  apply (X10_last_EnableTimezone_wins Sample.machine Sample.outside
           [ EnableTimezone Sample.outside "America/New_York" ]
           [ @EnableConsole Sample.machine slog.LevelInfo ]
           "Asia/Hong_Kong" Sample.m0
           {| Logger :=
                Some {| tz := Some "Asia/Hong_Kong";
                        handlers := [NewTextHandler Stderr slog.LevelInfo] |};
              logFile := None;
              timezone := Some "Asia/Hong_Kong";
              ms_handlers := [NewTextHandler Stderr slog.LevelInfo] |}).
  - constructor; [intros ms w; reflexivity | constructor].
  - reflexivity.
Defined.

(** X11.  The file that [Close] closes is the one opened for the last
    [EnableLogFile] among the options.  Whatever options come before
    it, when the options after it keep the file handle and the sinks
    and [New] returns, the struct holds the file that [openLogFile]
    returned for that option, a JSON sink that writes to this file with
    the threshold of the option is registered, and [Close] then makes
    exactly one close call, on this file, and clears the handle. *)
Theorem X11_Close_closes_the_file_of_the_last_EnableLogFile :
  forall (W : Type) (O : Outside W) (pre rest : list (@Option W))
         (level : slog.Level) (name : string)
         (allowRead clearOnRestart : bool) (w : W) (ms : Multislog sink),
    Forall keeps_file rest ->
    value (New (pre ++ EnableLogFile O level name allowRead clearOnRestart
                       :: rest) w) = Returned ms ->
    exists w1 f,
      value (openLogFile O name allowRead clearOnRestart w1) = OK f
      /\ logFile ms = Some f
      /\ In (NewJSONHandler (ToFile f) level) (ms_handlers ms)
      /\ forall w',
           closes (trace (@Multislog_Close W sink (sink_Handler O) O ms w'))
           = [EvFileClose f]
           /\ logFile (value (@Multislog_Close W sink (sink_Handler O) O
                                ms w')) = None.
Proof.
  intros W O pre rest level name allowRead clearOnRestart w ms Hrest Hret.
  apply New_returned in Hret as (ms0 & Hloop & ->).
  apply New_loop_app_returned in Hloop as (ms1 & w1 & Hloop).
  rewrite New_loop_cons, value_bind in Hloop.
  destruct (fst (value (EnableLogFile O level name allowRead clearOnRestart
                          ms1 w1))) eqn:Hopt; [discriminate Hloop|].
  apply EnableLogFile_returned in Hopt as (f & Hopen & Hms & _).
  rewrite Hms in Hloop.
  apply (New_loop_keeps_file _ Hrest) in Hloop as (Hfile & more & Hmore).
  cbn [logFile ms_handlers set_handlers set_logFile] in Hfile, Hmore.
  exists w1, f. split; [exact Hopen|].
  cbn [logFile ms_handlers set_Logger].
  split; [exact Hfile|]. split.
  - rewrite Hmore. apply in_or_app. left. apply in_or_app. right. now left.
  - intros w'. rewrite Close_of_sinks, Close_value.
    cbn [logFile set_Logger set_logFile]. now rewrite Hfile.
Qed.

(** X11 for a constructor call with a console and a log file. *)
Lemma X11_witness :
  exists w1 f,
    value (openLogFile Sample.outside "test.log" false true w1) = OK f
    /\ Some sample_file = Some f
    /\ In (NewJSONHandler (ToFile f) slog.LevelInfo)
          [ NewTextHandler Stderr slog.LevelDebug;
            NewJSONHandler (ToFile sample_file) slog.LevelInfo ].
Proof.
  destruct (X11_Close_closes_the_file_of_the_last_EnableLogFile
              Sample.machine Sample.outside
              [ @EnableConsole Sample.machine slog.LevelDebug ] []
              slog.LevelInfo "test.log" false true Sample.m0
              {| Logger :=
                   Some {| tz := Some UTC;
                           handlers :=
                             [ NewTextHandler Stderr slog.LevelDebug;
                               NewJSONHandler (ToFile sample_file)
                                 slog.LevelInfo ] |};
                 logFile := Some sample_file;
                 timezone := Some UTC;
                 ms_handlers :=
                   [ NewTextHandler Stderr slog.LevelDebug;
                     NewJSONHandler (ToFile sample_file) slog.LevelInfo ] |}
              (Forall_nil _) eq_refl)
    as (w1 & f & Hopen & Hfile & Hin & _).
  now exists w1, f.
Defined.

(** X12.  With two [EnableLogFile] options both files are opened and
    both JSON sinks are registered, but the struct keeps the second
    file only: [Close] closes the second file and makes no close call
    on the first. *)
Theorem X12_first_of_two_log_files_is_not_closed :
  forall (W : Type) (O : Outside W)
         (level1 level2 : slog.Level) (name1 name2 : string)
         (allowRead1 clearOnRestart1 allowRead2 clearOnRestart2 : bool)
         (w : W) (ms : Multislog sink),
    value (New [ EnableLogFile O level1 name1 allowRead1 clearOnRestart1;
                 EnableLogFile O level2 name2 allowRead2 clearOnRestart2 ] w)
    = Returned ms ->
    exists f1 f2,
      value (openLogFile O name1 allowRead1 clearOnRestart1 w) = OK f1
      /\ value (openLogFile O name2 allowRead2 clearOnRestart2
                  (world (openLogFile O name1 allowRead1 clearOnRestart1 w)))
         = OK f2
      /\ ms_handlers ms = [ NewJSONHandler (ToFile f1) level1;
                            NewJSONHandler (ToFile f2) level2 ]
      /\ logFile ms = Some f2
      /\ forall w',
           closes (trace (@Multislog_Close W sink (sink_Handler O) O ms w'))
           = [EvFileClose f2].
Proof.
  intros W O level1 level2 name1 name2 allowRead1 clearOnRestart1
         allowRead2 clearOnRestart2 w ms Hret.
  apply New_returned in Hret as (ms0 & Hloop & ->).
  rewrite New_loop_cons, value_bind in Hloop.
  destruct (fst (value (EnableLogFile O level1 name1 allowRead1
                          clearOnRestart1 _ w))) eqn:Hopt1;
    [discriminate Hloop|].
  apply EnableLogFile_returned in Hopt1 as (f1 & Hopen1 & Hms1 & Hw1).
  rewrite Hms1, Hw1, New_loop_cons, value_bind in Hloop.
  destruct (fst (value (EnableLogFile O level2 name2 allowRead2
                          clearOnRestart2 _ _))) eqn:Hopt2;
    [discriminate Hloop|].
  apply EnableLogFile_returned in Hopt2 as (f2 & Hopen2 & Hms2 & _).
  rewrite Hms2 in Hloop. unfold New_loop, ret, value in Hloop.
  cbn [fst] in Hloop. inversion Hloop; subst ms0.
  exists f1, f2. split; [exact Hopen1|]. split; [exact Hopen2|].
  split; [reflexivity|]. split; [reflexivity|].
  intros w'. now rewrite Close_of_sinks.
Qed.

(** X12 for an old and a new log file on the sample machine. *)
Lemma X12_witness :
  exists f1 f2,
    value (openLogFile Sample.outside "old.log" false false Sample.m0)
    = OK f1
    /\ value (openLogFile Sample.outside "test.log" false true
                (world (openLogFile Sample.outside "old.log" false false
                          Sample.m0))) = OK f2
    /\ f1 <> f2.
Proof.
  destruct (X12_first_of_two_log_files_is_not_closed Sample.machine
              Sample.outside slog.LevelInfo slog.LevelDebug
              "old.log" "test.log" false false false true Sample.m0
              {| Logger :=
                   Some {| tz := Some UTC;
                           handlers :=
                             [ NewJSONHandler
                                 (ToFile {| File_Name := "/opt/app/old.log";
                                            File_fd := 3 |}) slog.LevelInfo;
                               NewJSONHandler
                                 (ToFile {| File_Name := "/opt/app/test.log";
                                            File_fd := 4 |})
                                 slog.LevelDebug ] |};
                 logFile := Some {| File_Name := "/opt/app/test.log";
                                    File_fd := 4 |};
                 timezone := Some UTC;
                 ms_handlers :=
                   [ NewJSONHandler
                       (ToFile {| File_Name := "/opt/app/old.log";
                                  File_fd := 3 |}) slog.LevelInfo;
                     NewJSONHandler
                       (ToFile {| File_Name := "/opt/app/test.log";
                                  File_fd := 4 |}) slog.LevelDebug ] |}
              eq_refl)
    as (f1 & f2 & Hopen1 & Hopen2 & Hhs & _).
  exists f1, f2. split; [exact Hopen1|]. split; [exact Hopen2|].
  inversion Hhs. discriminate.
Defined.

(* ================================================================= *)
(** ** More on the log-file sandbox *)

Section MoreSandboxFacts.
Context {W : Type} (O : Outside W).

Lemma invalid_name_true (name : string) :
  invalid_name name = true
  <-> name = "" \/ strings.ContainsByte name filepath.Separator = true.
Proof.
  split.
  - intros Hinv. destruct (String.eqb_spec name ""); [now left|]. right.
    destruct (strings.ContainsByte name filepath.Separator) eqn:Hs;
      [reflexivity|].
    assert (Hv : invalid_name name = false)
      by (apply invalid_name_false; now split).
    congruence.
  - intros Hname. destruct (invalid_name name) eqn:Hinv; [reflexivity|].
    apply invalid_name_false in Hinv as [Hne Hs].
    destruct Hname; [contradiction | congruence].
Qed.

End MoreSandboxFacts.

(** X13.  [openLogFile] returns the error that wraps
    [errInvalidLogFileName] exactly when the executable could be
    located and the name is empty or contains a separator; every other
    name, [.] and [..] included, passes the check on names. *)
Theorem X13_invalid_name_error_iff_empty_or_separator :
  forall (W : Type) (O : Outside W) (name : string)
         (allowRead clearOnRestart : bool) (w : W),
    value (openLogFile O name allowRead clearOnRestart w)
    = Err (Errorf "%w: %q" [OpError errInvalidLogFileName; OpString name])
    <-> (exists exePath resolved,
            os_Executable O w = OK exePath
            /\ filepath_EvalSymlinks O exePath w = OK resolved)
        /\ (name = ""
            \/ strings.ContainsByte name filepath.Separator = true).
Proof.
  intros W O name allowRead clearOnRestart w.
  rewrite <- invalid_name_true, openLogFile_eq.
  destruct (os_Executable O w) as [exePath|e].
  2:{ split; [discriminate | intros [(p & q & Hp & _) _]; discriminate]. }
  destruct (filepath_EvalSymlinks O exePath w) as [resolved|e] eqn:Hres.
  2:{ split; [discriminate|].
      intros [(p & q & Hp & Hq) _]. inversion Hp; subst. congruence. }
  cbv zeta. destruct (invalid_name name).
  - split; [|reflexivity]. intros _. split; [|reflexivity].
    now exists exePath, resolved.
  - split; [|intros [_ Hf]; discriminate Hf].
    destruct (os_Stat O _ w); [|discriminate].
    destruct (strings.HasPrefix _ _); [|discriminate].
    rewrite open_with_eq. cbv zeta. cbn [value fst].
    destruct (fst (os_OpenFile O _ _ _ w)); discriminate.
Qed.

(** X14.  [openLogFile] calls [os.OpenFile] at most once.  When it
    does not call it, it returns an error and leaves the world as it
    is.  When it does, the name passed the check on names, the path
    opened is the name joined onto the directory of the resolved
    executable, the path with a separator appended starts with that
    directory with a separator appended, the flags and the permission
    are the assembled ones, and the world left is the one that call
    left. *)
Theorem X14_openLogFile_opens_at_most_once :
  forall (W : Type) (O : Outside W) (name : string)
         (allowRead clearOnRestart : bool) (w : W),
    let x := openLogFile O name allowRead clearOnRestart w in
    (filter is_open (trace x) = []
     /\ is_ok (value x) = false /\ world x = w)
    \/ (exists exePath resolved,
           os_Executable O w = OK exePath
           /\ filepath_EvalSymlinks O exePath w = OK resolved
           /\ name <> ""
           /\ strings.ContainsByte name filepath.Separator = false
           /\ let logPath := filepath.Join (filepath.Dir resolved) name in
              let flags := fst (assemble allowRead clearOnRestart) in
              let perm := snd (assemble allowRead clearOnRestart) in
              filter is_open (trace x) = [EvOpenFile logPath flags perm]
              /\ strings.HasPrefix (logPath +++ PathSeparator)
                   (filepath.Dir resolved +++ PathSeparator) = true
              /\ world x = snd (os_OpenFile O logPath flags perm w)).
Proof.
  intros W O name allowRead clearOnRestart w x. subst x.
  rewrite openLogFile_eq.
  destruct (os_Executable O w) as [exePath|e] eqn:Hexe;
    [|left; now repeat split].
  destruct (filepath_EvalSymlinks O exePath w) as [resolved|e] eqn:Hres;
    [|left; now repeat split].
  cbv zeta. destruct (invalid_name name) eqn:Hinv; [left; now repeat split|].
  destruct (os_Stat O _ w); [|left; now repeat split].
  apply invalid_name_false in Hinv as [Hne Hsep].
  assert (Hclean : filepath.Clean name = name).
  { rewrite (Clean_no_sep _ Hsep). apply String.eqb_neq in Hne.
    now rewrite Hne. }
  rewrite Hclean.
  destruct (strings.HasPrefix _ _) eqn:Hpre; [|left; now repeat split].
  right. exists exePath, resolved.
  rewrite open_with_eq. cbv zeta. cbn [value world trace fst snd].
  split; [first [reflexivity | assumption]|].
  split; [first [reflexivity | assumption]|].
  split; [exact Hne|]. split; [exact Hsep|].
  split; [reflexivity|]. split; [exact Hpre | reflexivity].
Qed.

(** X15.  In the revision of [openLogFile] that resolves the joined
    path, every path given to [os.OpenFile] is what
    [filepath.EvalSymlinks] returned for the name joined onto the
    directory of the resolved executable, and that resolved path, with
    a separator appended, starts with the directory with a separator
    appended. *)
Theorem X15_resolving_revision_opens_resolved_paths_under_base :
  forall (W : Type) (O : Outside W) (name : string)
         (allowRead clearOnRestart : bool) (w : W)
         (p : string) (flag perm : Z),
    In (EvOpenFile p flag perm)
       (trace (openLogFile_resolving O name allowRead clearOnRestart w)) ->
    exists exePath resolved,
      os_Executable O w = OK exePath
      /\ filepath_EvalSymlinks O exePath w = OK resolved
      /\ filepath_EvalSymlinks O
           (filepath.Join (filepath.Dir resolved) (filepath.Clean name)) w
         = OK p
      /\ strings.HasPrefix (p +++ PathSeparator)
           (filepath.Dir resolved +++ PathSeparator) = true.
Proof.
  intros W O name allowRead clearOnRestart w p flag perm.
  apply resolving_opens_under_base.
Qed.

(** X15 for the existing log file of the sample machine. *)
Lemma X15_witness :
  exists exePath resolved,
    os_Executable Sample.outside Sample.m0 = OK exePath
    /\ filepath_EvalSymlinks Sample.outside exePath Sample.m0 = OK resolved
    /\ filepath_EvalSymlinks Sample.outside
         (filepath.Join (filepath.Dir resolved) (filepath.Clean "old.log"))
         Sample.m0 = OK "/opt/app/old.log"
    /\ strings.HasPrefix ("/opt/app/old.log" +++ PathSeparator)
         (filepath.Dir resolved +++ PathSeparator) = true.
Proof.
  apply (X15_resolving_revision_opens_resolved_paths_under_base
           Sample.machine Sample.outside "old.log" false false Sample.m0
           "/opt/app/old.log" 1089 384).
  vm_compute. intuition.
Defined.

(** X16.  The two revisions of [openLogFile] agree wherever the joined
    path resolves to itself and the directory of the executable can be
    inspected: they return the same result, leave the same world and
    make the same call of [os.OpenFile]. *)
Theorem X16_revisions_agree_without_links :
  forall (W : Type) (O : Outside W) (name : string)
         (allowRead clearOnRestart : bool) (w : W)
         (exePath resolved : string) (info : unit),
    os_Executable O w = OK exePath ->
    filepath_EvalSymlinks O exePath w = OK resolved ->
    os_Stat O (filepath.Dir resolved) w = OK info ->
    filepath_EvalSymlinks O
      (filepath.Join (filepath.Dir resolved) (filepath.Clean name)) w
    = OK (filepath.Join (filepath.Dir resolved) (filepath.Clean name)) ->
    let x := openLogFile O name allowRead clearOnRestart w in
    let y := openLogFile_resolving O name allowRead clearOnRestart w in
    value x = value y /\ world x = world y
    /\ filter is_open (trace x) = filter is_open (trace y).
Proof.
  intros W O name allowRead clearOnRestart w exePath resolved info
         Hexe Hres Hstat Hself x y. subst x y.
  rewrite openLogFile_eq, openLogFile_resolving_eq, Hexe, Hres. cbv zeta.
  rewrite Hstat, Hself.
  destruct (invalid_name name); [now repeat split|].
  destruct (strings.HasPrefix _ _); now repeat split.
Qed.

(** X16 for the existing log file of the sample machine. *)
Lemma X16_witness :
  value (openLogFile Sample.outside "old.log" false false Sample.m0)
  = value (openLogFile_resolving Sample.outside "old.log" false false
             Sample.m0)
  /\ world (openLogFile Sample.outside "old.log" false false Sample.m0)
     = world (openLogFile_resolving Sample.outside "old.log" false false
                Sample.m0)
  /\ filter is_open
       (trace (openLogFile Sample.outside "old.log" false false Sample.m0))
     = filter is_open
         (trace (openLogFile_resolving Sample.outside "old.log" false false
                   Sample.m0)).
Proof.
  apply (X16_revisions_agree_without_links Sample.machine Sample.outside
           "old.log" false false Sample.m0 "/opt/app/multislog"
           "/opt/app/multislog" tt); reflexivity.
Defined.

(* ================================================================= *)
(** ** More on teardown *)

Section MoreCloseFacts.
Context {W H : Type} {I : Handler.Handler W H} (O : Outside W).


(** The world after the [Close] methods of the sinks that have one, run
    in the order of the slice. *)
Definition after_closers (hs : list H) (w : W) : W :=
  fold_left
    (fun w' h =>
       match Handler.Closer h with
       | Some close => snd (close w')
       | None => w'
       end) hs w.

Lemma Close_loop_world (hs : list H) :
  forall i w, world (Close_loop i hs w) = after_closers hs w.
Proof.
  induction hs as [|h rest IH]; intros i w; [reflexivity|].
  rewrite Close_loop_cons, world_bind, IH. unfold after_closers. cbn [fold_left].
  destruct (Handler.Closer h) as [close|]; [|reflexivity].
  rewrite world_bind, world_call.
  destruct (value (call (EvSinkClose i) close w)); reflexivity.
Qed.

Lemma Close_world (ms : Multislog H) (w : W) :
  world (Multislog_Close O ms w)
  = match logFile ms with
    | Some f => snd (File_Close O f (after_closers (ms_handlers ms) w))
    | None => after_closers (ms_handlers ms) w
    end.
Proof.
  unfold Multislog_Close. rewrite world_bind, Close_loop_world.
  destruct (logFile ms) as [f|]; [|reflexivity].
  rewrite !world_bind, world_call.
  destruct (value (call (EvFileClose f) (File_Close O f) _)); reflexivity.
Qed.




End MoreCloseFacts.



(** X18.  The world after teardown is the world after the [Close]
    methods of the sinks that have one, run in the order of
    registration each on the world the one before left, followed by
    the close of the file when the struct owns one. *)
Theorem X18_Close_runs_the_closers_then_the_file :
  forall (W H : Type) (I : Handler.Handler W H) (O : Outside W)
         (ms : Multislog H) (w : W),
    world (Multislog_Close O ms w)
    = match logFile ms with
      | Some f => snd (File_Close O f (after_closers (ms_handlers ms) w))
      | None => after_closers (ms_handlers ms) w
      end.
Proof. intros W H I O ms w. apply Close_world. Qed.

(* ================================================================= *)
(** ** Thresholds of the registered sinks *)

(** The threshold of a console, file or email sink. *)
Definition threshold (h : sink) : slog.Level :=
  match h with
  | TextHandler c | JSONHandler c => opts_Level c
  | EmailHandler eh => Level eh
  end.

Lemma sink_Enabled_threshold {W} (O : Outside W) (h : sink)
  (level : slog.Level) :
  @Handler.Enabled W sink (sink_Handler O) h level
  = (threshold h <=? level)%Z.
Proof. destruct h; reflexivity. Qed.

(** X19.  For a dispatcher over console, file and email sinks a sink
    is enabled exactly from its threshold upwards, so the dispatcher
    is enabled from the lowest threshold upwards: a level at or above
    an enabled level is enabled, and a record at the higher level is
    given to every sink that a record at the lower level is given to. *)
Theorem X19_thresholds_are_upward_closed :
  forall (W : Type) (O : Outside W) (mh : multihandler sink)
         (r r' : slog.Record_) (w w' : W),
    (slog.Level_ r <= slog.Level_ r')%Z ->
    (forall level,
        @multihandler_Enabled W sink (sink_Handler O) mh level = true
        <-> exists h, In h (handlers mh) /\ (threshold h <= level)%Z)
    /\ (@multihandler_Enabled W sink (sink_Handler O) mh (slog.Level_ r)
        = true ->
        @multihandler_Enabled W sink (sink_Handler O) mh (slog.Level_ r')
        = true)
    /\ (forall i,
          (exists rec,
              In (EvHandle i rec)
                 (trace (@multihandler_Handle W sink (sink_Handler O)
                           mh r w))) ->
          exists rec',
            In (EvHandle i rec')
               (trace (@multihandler_Handle W sink (sink_Handler O)
                         mh r' w'))).
Proof.
  intros W O mh r r' w w' Hle.
  assert (Hiff : forall level,
             @multihandler_Enabled W sink (sink_Handler O) mh level = true
             <-> exists h, In h (handlers mh) /\ (threshold h <= level)%Z).
  { intros level. unfold multihandler_Enabled. rewrite Enabled_loop_true.
    split; intros (h & Hin & Hen); exists h; (split; [exact Hin|]);
      rewrite sink_Enabled_threshold in *; now apply Z.leb_le. }
  split; [exact Hiff|]. split.
  - rewrite !Hiff. intros (h & Hin & Hen). exists h. split; [exact Hin | lia].
  - intros i (rec & Hin).
    apply Handle_invoked in Hin as (_ & h & Hn & Hen).
    exists (localized (tz mh) r'). apply Handle_invoked.
    split; [reflexivity|]. exists h. split; [exact Hn|].
    rewrite sink_Enabled_threshold in *.
    apply Z.leb_le. apply Z.leb_le in Hen. lia.
Qed.

(** X19 for [sample_mh], a warning and an error: the file sink, which
    gets the warning, gets the error. *)
Lemma X19_witness :
  (slog.Level_ sample_record <= slog.LevelError)%Z
  /\ exists rec',
       In (EvHandle 1 rec')
          (trace (@multihandler_Handle _ _ (sink_Handler Sample.outside)
                    sample_mh
                    {| slog.Time_ := slog.Time_ sample_record;
                       slog.Message := "disk full";
                       slog.Level_ := slog.LevelError;
                       slog.Attrs := [] |} Sample.m0)).
Proof.
  assert (Hle : (slog.Level_ sample_record <= slog.LevelError)%Z)
    by (vm_compute; discriminate).
  split; [exact Hle|].
  destruct (X19_thresholds_are_upward_closed Sample.machine Sample.outside
              sample_mh sample_record
              {| slog.Time_ := slog.Time_ sample_record;
                 slog.Message := "disk full";
                 slog.Level_ := slog.LevelError;
                 slog.Attrs := [] |} Sample.m0 Sample.m0 Hle)
    as (_ & _ & Hsame).
  apply (Hsame 1).
  exists (localized (Some "Asia/Hong_Kong") sample_record).
  right. left. reflexivity.
Defined.

(** X1 for the dispatcher that [New] makes without options. *)
Lemma X1_witness :
  @multihandler_Enabled Sample.machine sink (sink_Handler Sample.outside)
    {| tz := Some UTC; handlers := [] |} slog.LevelError = false.
Proof.
  apply (X1_dispatcher_enabled_iff_some_sink_is Sample.machine sink
           (sink_Handler Sample.outside)).
  reflexivity.
Defined.
